(** * UtilsCore (src/core/utils-core.js): canvas and WebGL probing, clone,
      kernel-object validation.

    The JavaScript of [UtilsCore] is embedded over an explicit store: a heap
    of objects (own data properties in own-key order, a prototype, a host
    slot) and a trace of the host calls made.  A computation takes a store
    and returns a value with the new store, or throws with the store it had
    reached.  Only [clone] recurses: it takes the number of nested calls the
    call stack has room for, and throws a RangeError when there is none.

    Domain of the model.  Values are undefined, null, booleans, IEEE doubles,
    strings and references to heap objects.  Heap objects carry enumerable
    data properties with string keys; an ordinary object may have been made
    non-extensible, sealed or frozen, and then assignments and deletions
    fail as they do in strict code.  Callable members come only from the
    built-in prototypes (Object.prototype, a class prototype, the prototypes
    of host canvases, rendering contexts and documents), which are taken
    unmodified.  User-written functions, getters, properties given their
    attributes one by one, proxies, symbols and arrays are outside the model.
    Strings are byte strings; [toUpperCase] is exact on ASCII. *)

From Stdlib Require Import PrimFloat Ascii String.
From stdpp Require Import base strings list.

Set Default Proof Using "Type".
Local Open Scope string_scope.
Local Open Scope list_scope.
Set Warnings "-register-all".

(** ** Values and objects *)

Abbreviation loc := nat.

Inductive value :=
| VUndefined
| VNull
| VBool (b : bool)
| VNumber (f : float)
| VString (s : string)
| VObject (l : loc).

(** The [[Prototype]] of an object: one of the built-in prototype objects
    (which live outside the heap and are never modified) or a heap object. *)
Inductive prototype :=
| ObjectPrototype            (* %Object.prototype% *)
| NullPrototype              (* null, as after Object.create(null) *)
| ClassPrototype             (* C.prototype of an ES6 class C *)
| CanvasPrototype            (* HTMLCanvasElement.prototype *)
| WebGLPrototype             (* WebGLRenderingContext.prototype *)
| DocumentPrototype          (* Document.prototype *)
| StringPrototype            (* of string primitives *)
| PrimitivePrototype         (* Number.prototype, Boolean.prototype *)
| UserPrototype (l : loc).

Global Instance prototype_eq_dec : EqDecision prototype.
Proof. solve_decision. Defined.

(** What has been done to an ordinary object that is no longer extensible:
    [Object.preventExtensions] (no property can be added),
    [Object.seal] (nor deleted) or [Object.freeze] (nor written). *)
Inductive integrity :=
| NonExtensible
| Sealed
| Frozen.

(** What the engine and the host keep behind an object.  An ordinary object
    is extensible ([Ordinary]) or restricted to an integrity level.  For a
    canvas element the host keeps its node name and, per context identifier,
    what [getContext] hands out; for a rendering context, per extension
    name, what [getExtension] hands out; for a document, the canvas elements
    it creates.  Host objects are extensible. *)
Inductive internal :=
| Ordinary
| Restricted (level : integrity)
| CanvasElement (nodeName : string) (contexts : list (string * value))
| RenderingContext (extensions : list (string * value))
| Document (nodeName : string) (contexts : list (string * value)).

(** [props] lists the own properties in own-key order, the order in which
    [for-in] visits them: integer-like keys ascending, then the other keys in
    insertion order.  Keys are distinct in every heap a program builds.  The
    properties are enumerable data properties; they can be written and
    deleted as far as the integrity level in [slot] allows. *)
Record object := Object {
  proto : prototype;
  slot : internal;
  props : list (string * value)
}.

Inductive event :=
| CreateElementCall (tag : string)
| GetContextCall (canvas : loc) (id : string) (options : value)
| GetExtensionCall (context : loc) (name : string)
| ConsoleError.

Record store := Store {
  heap : list object;
  trace : list event
}.

(** What a [throw] carries: an engine TypeError or ReferenceError, a
    [new Error(prefix + arg)] (the argument kept as the primitive that is
    appended), or a thrown primitive such as the strings of
    [validateKernelObj]. *)
Inductive exn :=
| TypeError
| ReferenceError
| RangeError
| Error (prefix : string) (arg : value)
| Thrown (v : value).

Inductive outcome (A : Type) :=
| Ret (a : A) (s : store)
| Throw (e : exn) (s : store).
Arguments Ret {A} a s.
Arguments Throw {A} e s.

Definition M (A : Type) : Type := store -> outcome A.

Definition ret {A} (a : A) : M A := fun s => Ret a s.
Definition throw {A} (e : exn) : M A := fun s => Throw e s.
Definition bind {A B} (m : M A) (k : A -> M B) : M B :=
  fun s => match m s with
           | Ret a s' => k a s'
           | Throw e s' => Throw e s'
           end.

Notation "'let*' x ':=' c 'in' k" := (bind c (fun x => k))
  (at level 10, x name, c at level 100, k at level 200).
Notation "c ';;;' k" := (bind c (fun _ => k))
  (at level 100, k at level 200, right associativity).

(** ** Own properties *)

Fixpoint assoc {A} (k : string) (ps : list (string * A)) : option A :=
  match ps with
  | [] => None
  | (k', v) :: ps' => if String.eqb k k' then Some v else assoc k ps'
  end.

Fixpoint assoc_set (k : string) (v : value) (ps : list (string * value))
  : list (string * value) :=
  match ps with
  | [] => [(k, v)]
  | (k', v') :: ps' =>
      if String.eqb k k' then (k, v) :: ps' else (k', v') :: assoc_set k v ps'
  end.

Fixpoint assoc_remove (k : string) (ps : list (string * value))
  : list (string * value) :=
  match ps with
  | [] => []
  | (k', v') :: ps' =>
      if String.eqb k k' then assoc_remove k ps' else (k', v') :: assoc_remove k ps'
  end.

Definition own (o : object) (k : string) : option value := assoc k (props o).

Definition has_own (h : list object) (l : loc) (k : string) : bool :=
  match h !! l with
  | Some o => match own o k with Some _ => true | None => false end
  | None => false
  end.

(** The integrity level of an object: whether properties can be added to it
    ([extensible]), whether its properties cannot be deleted ([sealed]), and
    whether they cannot be written either ([frozen]). *)
Definition extensible (o : object) : bool :=
  match slot o with Restricted _ => false | _ => true end.

Definition sealed (o : object) : bool :=
  match slot o with Restricted (Sealed | Frozen) => true | _ => false end.

Definition frozen (o : object) : bool :=
  match slot o with Restricted Frozen => true | _ => false end.

Definition with_props (o : object) (ps : list (string * value)) : object :=
  {| proto := proto o; slot := slot o; props := ps |}.

Definition with_proto (o : object) (p : prototype) : object :=
  {| proto := p; slot := slot o; props := props o |}.

Definition update (l : loc) (f : object -> object) (s : store) : store :=
  match heap s !! l with
  | Some o => {| heap := <[l := f o]> (heap s); trace := trace s |}
  | None => s
  end.

Definition alloc (o : object) : M value :=
  fun s => Ret (VObject (length (heap s)))
               {| heap := heap s ++ [o]; trace := trace s |}.

Definition log (e : event) : M unit :=
  fun s => Ret tt {| heap := heap s; trace := trace s ++ [e] |}.

(** ** Property lookup through the prototype chain *)

Inductive builtin :=
| HasOwnProperty
| ObjectConstructor
| ClassConstructor
| ObjectToString
| ObjectValueOf
| ToUpperCase
| GetContext
| GetExtension
| CreateElement.

Inductive accessor := ProtoAccessor | NodeNameAccessor.

Inductive binding :=
| Data (v : value)
| Method (b : builtin)
| Accessor (a : accessor)
| Absent.

(** The members of Object.prototype that this module looks up. *)
Definition object_prototype_member (k : string) : binding :=
  if String.eqb k "hasOwnProperty" then Method HasOwnProperty
  else if String.eqb k "constructor" then Method ObjectConstructor
  else if String.eqb k "toString" then Method ObjectToString
  else if String.eqb k "valueOf" then Method ObjectValueOf
  else if String.eqb k "__proto__" then Accessor ProtoAccessor
  else Absent.

(** Own members of a built-in prototype; [None] sends the lookup on to
    Object.prototype, from which all of them but null inherit. *)
Definition builtin_own_member (p : prototype) (k : string) : option binding :=
  match p with
  | ClassPrototype =>
      if String.eqb k "constructor" then Some (Method ClassConstructor) else None
  | CanvasPrototype =>
      if String.eqb k "getContext" then Some (Method GetContext)
      else if String.eqb k "nodeName" then Some (Accessor NodeNameAccessor)
      else if String.eqb k "constructor" then Some (Method ClassConstructor)
      else None
  | WebGLPrototype =>
      if String.eqb k "getExtension" then Some (Method GetExtension)
      else if String.eqb k "constructor" then Some (Method ClassConstructor)
      else None
  | DocumentPrototype =>
      if String.eqb k "createElement" then Some (Method CreateElement)
      else if String.eqb k "constructor" then Some (Method ClassConstructor)
      else None
  | StringPrototype =>
      if String.eqb k "toUpperCase" then Some (Method ToUpperCase) else None
  | _ => None
  end.

Definition builtin_member (p : prototype) (k : string) : binding :=
  match p with
  | NullPrototype => Absent
  | _ => match builtin_own_member p k with
         | Some b => b
         | None => object_prototype_member k
         end
  end.

(** [find_member] walks own properties, then the prototype chain.  Chains of a
    JavaScript heap are acyclic, so [length h] steps reach a built-in. *)
Fixpoint find_member (fuel : nat) (h : list object) (l : loc) (k : string) : binding :=
  match h !! l with
  | None => Absent
  | Some o =>
      match own o k with
      | Some v => Data v
      | None =>
          match proto o with
          | UserPrototype l' =>
              match fuel with
              | 0 => Absent
              | S fuel' => find_member fuel' h l' k
              end
          | p => builtin_member p k
          end
      end
  end.

(** The result of evaluating a member expression: a value, a built-in
    function, or a built-in prototype object (from [x.__proto__]; a heap
    object that serves as prototype is the value [VObject l]). *)
Inductive rvalue :=
| Val (v : value)
| Fun (b : builtin)
| Prot (p : prototype).

Definition is_nan (f : float) : bool := negb (PrimFloat.eqb f f).

(** ToBoolean *)
Definition truthy (v : value) : bool :=
  match v with
  | VUndefined | VNull => false
  | VBool b => b
  | VNumber f => negb (PrimFloat.eqb f 0%float) && negb (is_nan f)
  | VString s => negb (String.eqb s "")
  | VObject _ => true
  end.

Definition rtruthy (r : rvalue) : bool :=
  match r with
  | Val v => truthy v
  | Fun _ | Prot _ => true
  end.

(** The value a falsy operand of [&&] leaves as the expression's result (a
    function or a prototype object is truthy, so only [Val] is ever asked). *)
Definition falsy_value (r : rvalue) : value :=
  match r with
  | Val v => v
  | _ => VNull
  end.

Definition typeof (v : value) : string :=
  match v with
  | VUndefined => "undefined"
  | VNull => "object"
  | VBool _ => "boolean"
  | VNumber _ => "number"
  | VString _ => "string"
  | VObject _ => "object"
  end.

Definition is_null (v : value) : bool :=
  match v with VNull => true | _ => false end.

(** [x == null] *)
Definition loosely_null (v : value) : bool :=
  match v with VNull | VUndefined => true | _ => false end.

(** [a === b] *)
Definition strict_equal (a b : value) : bool :=
  match a, b with
  | VUndefined, VUndefined => true
  | VNull, VNull => true
  | VBool x, VBool y => Bool.eqb x y
  | VNumber x, VNumber y => PrimFloat.eqb x y
  | VString x, VString y => String.eqb x y
  | VObject x, VObject y => Nat.eqb x y
  | _, _ => false
  end.

Definition proto_of (h : list object) (v : value) : option prototype :=
  match v with
  | VUndefined | VNull => None
  | VBool _ | VNumber _ => Some PrimitivePrototype
  | VString _ => Some StringPrototype
  | VObject l => proto <$> h !! l
  end.

Definition member (h : list object) (v : value) (k : string) : option binding :=
  match v with
  | VUndefined | VNull => None
  | VBool _ | VNumber _ => Some (builtin_member PrimitivePrototype k)
  | VString _ => Some (builtin_member StringPrototype k)
  | VObject l => Some (find_member (length h) h l k)
  end.

(** [v.k] in value position.  Reading a property of undefined or null is a
    TypeError; an accessor runs against the receiver [v]. *)
Definition get_prop (v : value) (k : string) : M rvalue :=
  fun s =>
    match member (heap s) v k with
    | None => Throw TypeError s
    | Some (Data x) => Ret (Val x) s
    | Some (Method b) => Ret (Fun b) s
    | Some Absent => Ret (Val VUndefined) s
    | Some (Accessor ProtoAccessor) =>
        match proto_of (heap s) v with
        | Some (UserPrototype l') => Ret (Val (VObject l')) s
        | Some NullPrototype => Ret (Val VNull) s
        | Some p => Ret (Prot p) s
        | None => Throw TypeError s
        end
    | Some (Accessor NodeNameAccessor) =>
        match v with
        | VObject l =>
            match slot <$> heap s !! l with
            | Some (CanvasElement n _) => Ret (Val (VString n)) s
            | _ => Throw TypeError s
            end
        | _ => Throw TypeError s
        end
    end.

(** ** Assignment and deletion *)

(** Whether the property [k] that an assignment finds on the chain from
    [l] can be written: the properties of a frozen object are read-only, for
    the object itself and for those that inherit from it. *)
Fixpoint writable_member (fuel : nat) (h : list object) (l : loc) (k : string) : bool :=
  match h !! l with
  | None => true
  | Some o =>
      match own o k with
      | Some _ => negb (frozen o)
      | None =>
          match proto o with
          | UserPrototype l' =>
              match fuel with
              | 0 => true
              | S fuel' => writable_member fuel' h l' k
              end
          | _ => true
          end
      end
  end.

(** Whether the prototype chain that starts at [from] passes through
    [target]. *)
Fixpoint on_chain (fuel : nat) (h : list object) (from target : loc) : bool :=
  Nat.eqb from target
  || match proto <$> h !! from with
     | Some (UserPrototype l') =>
         match fuel with
         | 0 => false
         | S fuel' => on_chain fuel' h l' target
         end
     | _ => false
     end.

(** [Object.setPrototypeOf] as the [__proto__] setter applies it.  Asking
    for the prototype the object has changes nothing; otherwise an object
    that is not extensible keeps its prototype, and so does one that the
    new chain would pass through; the setter then throws a TypeError. *)
Definition set_proto (l : loc) (o : object) (p : prototype) : M unit :=
  fun s =>
    if bool_decide (proto o = p)
       || extensible o
          && negb match p with
                  | UserPrototype l' => on_chain (length (heap s)) (heap s) l' l
                  | _ => false
                  end
    then Ret tt (update l (fun o => with_proto o p) s)
    else Throw TypeError s.

(** [v.k = x] in strict mode (class bodies are strict).  An own property is
    overwritten in place, unless the object is frozen; otherwise the chain
    decides: the [__proto__] accessor of Object.prototype replaces the
    prototype when [x] is an object or null and does nothing otherwise, an
    accessor without setter throws, and in every other case a new own
    property is appended, unless the object is not extensible or the
    property is inherited from a frozen object.  A failed assignment is a
    TypeError. *)
Definition put (v : value) (k : string) (x : value) : M unit :=
  fun s =>
    match v with
    | VObject l =>
        match heap s !! l with
        | None => Throw TypeError s
        | Some o =>
            match own o k with
            | Some _ =>
                if frozen o then Throw TypeError s
                else Ret tt (update l (fun o => with_props o (assoc_set k x (props o))) s)
            | None =>
                match find_member (length (heap s)) (heap s) l k with
                | Accessor ProtoAccessor =>
                    match x with
                    | VObject l' => set_proto l o (UserPrototype l') s
                    | VNull => set_proto l o NullPrototype s
                    | _ => Ret tt s
                    end
                | Accessor NodeNameAccessor => Throw TypeError s
                | _ =>
                    if extensible o && writable_member (length (heap s)) (heap s) l k
                    then Ret tt (update l (fun o => with_props o (props o ++ [(k, x)])) s)
                    else Throw TypeError s
                end
            end
        end
    | _ => Throw TypeError s
    end.

(** [delete v.k] in strict mode: deleting an own property of a sealed or
    frozen object is a TypeError. *)
Definition delete_prop (v : value) (k : string) : M unit :=
  fun s =>
    match v with
    | VObject l =>
        if match heap s !! l with
           | Some o => sealed o && bool_decide (is_Some (own o k))
           | None => false
           end
        then Throw TypeError s
        else Ret tt (update l (fun o => with_props o (assoc_remove k (props o))) s)
    | VUndefined | VNull => Throw TypeError s
    | _ => Ret tt s
    end.

(** ** Calls of built-in methods *)

(** The method calls this module makes, each with its arguments. *)
Inductive call :=
| CallHasOwnProperty (k : string)          (* x.hasOwnProperty(k) *)
| CallConstructor                           (* x.constructor() *)
| CallToUpperCase                           (* x.toUpperCase() *)
| CallGetContext (id : string) (options : value)   (* x.getContext(id, options) *)
| CallGetExtension (name : string)          (* x.getExtension(name) *)
| CallCreateCanvas.                         (* x.createElement('canvas') *)

Definition member_name (c : call) : string :=
  match c with
  | CallHasOwnProperty _ => "hasOwnProperty"
  | CallConstructor => "constructor"
  | CallToUpperCase => "toUpperCase"
  | CallGetContext _ _ => "getContext"
  | CallGetExtension _ => "getExtension"
  | CallCreateCanvas => "createElement"
  end.

Definition upper_ascii (c : Ascii.ascii) : Ascii.ascii :=
  let n := Ascii.nat_of_ascii c in
  if (97 <=? n)%nat && (n <=? 122)%nat then Ascii.ascii_of_nat (n - 32) else c.

Fixpoint toUpperCase (s : string) : string :=
  match s with
  | EmptyString => EmptyString
  | String c s' => String (upper_ascii c) (toUpperCase s')
  end.

Definition plain_object : object :=
  {| proto := ObjectPrototype; slot := Ordinary; props := [] |}.

(** Own members of a receiver, as Object.prototype.hasOwnProperty sees them.
    A string's own keys are its indices and [length], and a built-in
    prototype has the members listed above; the module asks neither for an
    index nor for [length]. *)
Definition has_own_member (h : list object) (this : rvalue) (k : string) : bool :=
  match this with
  | Val (VObject l) => has_own h l k
  | Val _ => false
  | Fun _ => false
  | Prot ObjectPrototype =>
      match object_prototype_member k with Absent => false | _ => true end
  | Prot p => bool_decide (is_Some (builtin_own_member p k))
  end.

Definition apply (f : builtin) (this : rvalue) (c : call) : M value :=
  match f, c with
  | HasOwnProperty, CallHasOwnProperty k =>
      fun s =>
        match this with
        | Val VUndefined | Val VNull => Throw TypeError s
        | _ => Ret (VBool (has_own_member (heap s) this k)) s
        end
  | ObjectConstructor, CallConstructor => alloc plain_object
  | ClassConstructor, _ => throw TypeError
  | ToUpperCase, CallToUpperCase =>
      match this with
      | Val (VString x) => ret (VString (toUpperCase x))
      | _ => throw TypeError
      end
  | GetContext, CallGetContext id options =>
      fun s =>
        match this with
        | Val (VObject l) =>
            match slot <$> heap s !! l with
            | Some (CanvasElement _ contexts) =>
                (log (GetContextCall l id options) ;;;
                 ret (default VNull (assoc id contexts))) s
            | _ => Throw TypeError s
            end
        | _ => Throw TypeError s
        end
  | GetExtension, CallGetExtension name =>
      fun s =>
        match this with
        | Val (VObject l) =>
            match slot <$> heap s !! l with
            | Some (RenderingContext extensions) =>
                (log (GetExtensionCall l name) ;;;
                 ret (default VNull (assoc name extensions))) s
            | _ => Throw TypeError s
            end
        | _ => Throw TypeError s
        end
  | CreateElement, CallCreateCanvas =>
      fun s =>
        match this with
        | Val (VObject l) =>
            match slot <$> heap s !! l with
            | Some (Document n contexts) =>
                (log (CreateElementCall "canvas") ;;;
                 alloc {| proto := CanvasPrototype;
                          slot := CanvasElement n contexts;
                          props := [] |}) s
            | _ => Throw TypeError s
            end
        | _ => Throw TypeError s
        end
  | _, _ => throw TypeError   (* no member name is bound to another built-in *)
  end.

(** The member [k] of a receiver that is itself the result of a member
    expression. *)
Definition rmember (h : list object) (this : rvalue) (k : string) : option binding :=
  match this with
  | Val v => member h v k
  | Fun _ => Some (object_prototype_member k)
  | Prot p => Some (builtin_member p k)
  end.

(** [this.m(args)]: the member is looked up, and calling anything but a
    function is a TypeError. *)
Definition invoke_on (this : rvalue) (c : call) : M value :=
  fun s =>
    match rmember (heap s) this (member_name c) with
    | Some (Method f) => apply f this c s
    | _ => Throw TypeError s
    end.

Definition invoke (this : value) (c : call) : M value := invoke_on (Val this) c.

(** The class tag Object.prototype.toString prints, read off the first
    built-in prototype of the chain. *)
Fixpoint class_tag (fuel : nat) (h : list object) (l : loc) : string :=
  match proto <$> h !! l with
  | Some (UserPrototype l') =>
      match fuel with 0 => "Object" | S fuel' => class_tag fuel' h l' end
  | Some CanvasPrototype => "HTMLCanvasElement"
  | Some WebGLPrototype => "WebGLRenderingContext"
  | Some DocumentPrototype => "HTMLDocument"
  | _ => "Object"
  end.

(** ToPrimitive without a hint, as [+] and [==] apply it.  For an object
    [valueOf] is tried first: it is Object.prototype.valueOf, which returns
    the object itself, or it is not callable; either way [toString] decides,
    and it is Object.prototype.toString or not callable. *)
Definition ToPrimitive (v : value) : M value :=
  fun s =>
    match v with
    | VObject l =>
        match find_member (length (heap s)) (heap s) l "toString" with
        | Method ObjectToString =>
            Ret (VString ("[object " ++ class_tag (length (heap s)) (heap s) l ++ "]")%string) s
        | _ => Throw TypeError s
        end
    | _ => Ret v s
    end.

(** [v.k] where the member is a data property or missing: every key the
    module reads this way ([isKernelObj], the extension names, own keys of
    an object) names no built-in function. *)
Definition get_value (v : value) (k : string) : M value :=
  let* r := get_prop v k in
  match r with
  | Val x => ret x
  | Fun _ | Prot _ => throw TypeError
  end.

(** ** Canvas validation and support (utils-core.js, lines 45-96) *)

(** [isCanvas]: [canvasObj !== null && canvasObj.nodeName &&
    canvasObj.getContext && canvasObj.nodeName.toUpperCase() === 'CANVAS'].
    [&&] returns its first falsy operand. *)
Definition isCanvas (canvasObj : value) : M value :=
  if is_null canvasObj then ret (VBool false)
  else
    let* n := get_prop canvasObj "nodeName" in
    if negb (rtruthy n) then ret (falsy_value n)
    else
      let* g := get_prop canvasObj "getContext" in
      if negb (rtruthy g) then ret (falsy_value g)
      else
        let* n' := get_prop canvasObj "nodeName" in
        let* u := invoke_on n' CallToUpperCase in
        ret (VBool (strict_equal u (VString "CANVAS"))).

(** The global [document]: [None] when the identifier is not declared. *)
Record environment := Environment { document : option value }.

Definition typeof_global (g : option value) : string :=
  match g with
  | None => "undefined"
  | Some v => typeof v
  end.

(** The module's constants, in the order lines 303-306 initialise them.
    [initCanvas] and [initWebGl] read [_isCanvasSupported]; they take it as
    an argument, since line 304 calls them before the others exist. *)
Record constants := Constants {
  _isCanvasSupported : value;
  _testingWebGl : value;
  _isWebGlSupported : value;
  _isWebGlDrawBuffersSupported : value
}.

Definition isCanvasSupported (c : constants) : value := _isCanvasSupported c.

Definition initCanvas (env : environment) (_isCanvasSupported : value) : M value :=
  if negb (truthy _isCanvasSupported) then ret VNull
  else
    match document env with
    | None => throw ReferenceError
    | Some doc =>
        let* canvas := invoke doc CallCreateCanvas in
        put canvas "width" (VNumber 2%float) ;;;
        put canvas "height" (VNumber 2%float) ;;;
        ret canvas
    end.

(** ** WebGL validation and support (lines 121-206) *)

Definition isWebGl (webGlObj : value) : M value :=
  if is_null webGlObj then ret (VBool false)
  else
    let* p := get_prop webGlObj "__proto__" in
    let* x := (if rtruthy p then invoke_on p (CallHasOwnProperty "getExtension")
               else ret (falsy_value p)) in
    if truthy x then ret x
    else
      let* q := get_prop webGlObj "prototype" in
      if rtruthy q then invoke_on q (CallHasOwnProperty "getExtension")
      else ret (falsy_value q).

Definition isWebGlSupported (c : constants) : value := _isWebGlSupported c.

Definition isWebGlDrawBuffersSupported (c : constants) : value :=
  _isWebGlDrawBuffersSupported c.

Definition initWebGlDefaultOptions : M value :=
  alloc {| proto := ObjectPrototype; slot := Ordinary;
           props := [("alpha", VBool false); ("depth", VBool false);
                     ("antialias", VBool false)] |}.

(** [canvasObj.getContext(id, UtilsCore.initWebGlDefaultOptions())]: the
    member is read, then the argument is built, then the call is made. *)
Definition getContext_with_defaults (canvasObj : value) (id : string) : M value :=
  let* g := get_prop canvasObj "getContext" in
  let* options := initWebGlDefaultOptions in
  match g with
  | Fun f => apply f (Val canvasObj) (CallGetContext id options)
  | _ => throw TypeError
  end.

(** [webGl.name = webGl.getExtension(name)] *)
Definition store_extension (webGl : value) (name : string) : M unit :=
  let* e := invoke webGl (CallGetExtension name) in
  put webGl name e.

Definition initWebGl (_isCanvasSupported : value) (canvasObj : value) : M value :=
  if (negb (String.eqb (typeof _isCanvasSupported) "undefined") || is_null canvasObj)
     && negb (truthy _isCanvasSupported)
  then ret VNull
  else
    let* valid := isCanvas canvasObj in
    if negb (truthy valid)
    then
      let* shown := ToPrimitive canvasObj in
      throw (Error "Invalid canvas object - " shown)
    else
      let* experimental := getContext_with_defaults canvasObj "experimental-webgl" in
      let* webGl := (if truthy experimental then ret experimental
                     else getContext_with_defaults canvasObj "webgl") in
      store_extension webGl "OES_texture_float" ;;;
      store_extension webGl "OES_texture_float_linear" ;;;
      store_extension webGl "OES_element_index_uint" ;;;
      ret webGl.

(** ** Module initialisation (lines 303-310) *)

(** What the module has recorded once it is loaded: the four constants and
    the three extension handles copied onto [UtilsCore]. *)

Record snapshot := Snapshot {
  consts : constants;
  OES_texture_float : value;
  OES_texture_float_linear : value;
  OES_element_index_uint : value
}.

Definition module_init (env : environment) : M snapshot :=
  let* canvasSupported :=
    (if negb (String.eqb (typeof_global (document env)) "undefined")
     then match document env with
          | Some doc =>
              let* canvas := invoke doc CallCreateCanvas in
              isCanvas canvas
          | None => throw ReferenceError
          end
     else ret (VBool false)) in
  let* canvas := initCanvas env canvasSupported in
  let* testingWebGl := initWebGl canvasSupported canvas in
  let* webGlSupported := isWebGl testingWebGl in
  let* drawBuffers := invoke testingWebGl (CallGetExtension "WEBGL_draw_buffers") in
  let* texture_float := get_value testingWebGl "OES_texture_float" in
  let* texture_float_linear := get_value testingWebGl "OES_texture_float_linear" in
  let* element_index_uint := get_value testingWebGl "OES_element_index_uint" in
  ret {| consts := {| _isCanvasSupported := canvasSupported;
                      _testingWebGl := testingWebGl;
                      _isWebGlSupported := webGlSupported;
                      _isWebGlDrawBuffersSupported := VBool (truthy drawBuffers) |};
         OES_texture_float := texture_float;
         OES_texture_float_linear := texture_float_linear;
         OES_element_index_uint := element_index_uint |}.

(** ** clone (lines 226-240) *)

(** The keys [for (let key in obj)] visits: the own keys in own-key order,
    then those of the prototype chain that no nearer object has.  Members of
    built-in prototypes are not enumerable. *)
Fixpoint for_in_keys (fuel : nat) (h : list object) (l : loc) : list string :=
  match h !! l with
  | None => []
  | Some o =>
      (props o).*1 ++
      match proto o with
      | UserPrototype l' =>
          match fuel with
          | 0 => []
          | S fuel' => list_difference (for_in_keys fuel' h l') (props o).*1
          end
      | _ => []
      end
  end.

Definition enumerate (obj : value) : M (list string) :=
  fun s =>
    match obj with
    | VObject l => Ret (for_in_keys (length (heap s)) (heap s) l) s
    | _ => Ret [] s
    end.

(** [Object.prototype.hasOwnProperty.call(obj, key)] *)
Definition hasOwnProperty_call (obj : value) (key : string) : M bool :=
  fun s => Ret (has_own_member (heap s) (Val obj) key) s.

Fixpoint for_each {A} (xs : list A) (body : A -> M unit) : M unit :=
  match xs with
  | [] => ret tt
  | x :: xs' => body x ;;; for_each xs' body
  end.

(** The body of the loop, with the recursive call abstracted. *)
Definition clone_key (rec : value -> M value) (obj temp : value) (key : string)
  : M unit :=
  let* mine := hasOwnProperty_call obj key in
  if mine then
    put obj "isActiveClone" VNull ;;;
    let* x := get_value obj key in
    let* c := rec x in
    put temp key c ;;;
    delete_prop obj "isActiveClone"
  else ret tt.

(** [clone] where the call stack has room for [stack] nested calls of it,
    the call itself included.  The engine throws a RangeError where a call
    does not fit; the model throws it on entry to the call of [clone] that
    does not fit, with the store reached by then. *)
Fixpoint clone (stack : nat) (obj : value) : M value :=
  match stack with
  | 0 => throw RangeError
  | S stack' =>
      if is_null obj || negb (String.eqb (typeof obj) "object") then ret obj
      else
        let* marked := invoke obj (CallHasOwnProperty "isActiveClone") in
        if truthy marked then ret obj
        else
          let* temp := invoke obj CallConstructor in
          let* keys := enumerate obj in
          for_each keys (clone_key (clone stack') obj temp) ;;;
          ret temp
  end.

(** ** validateKernelObj (lines 264-293) *)

Section Validation.

(** [JSON.parse] on a string, allocating in the heap; [None] when it throws
    a SyntaxError.  [StringToNumber] is the conversion [==] applies to a
    string operand. *)
Variable JSON_parse : string -> list object -> option (value * list object).
Variable StringToNumber : string -> float.

(** [p == 1] for a primitive [p] *)
Definition equals_one (p : value) : bool :=
  match p with
  | VNumber f => PrimFloat.eqb f 1%float
  | VString x => PrimFloat.eqb (StringToNumber x) 1%float
  | VBool b => b
  | _ => false
  end.

(** [v == true]: [true] becomes the number 1 and an object its primitive. *)
Definition loosely_true (v : value) : M bool :=
  match v with
  | VUndefined | VNull => ret false
  | _ => let* p := ToPrimitive v in ret (equals_one p)
  end.

Definition parse (text : string) : M (option value) :=
  fun s =>
    match JSON_parse text (heap s) with
    | Some (v, h) => Ret (Some v) {| heap := h; trace := trace s |}
    | None => Ret None s
    end.

Definition validateKernelObj (kernelObj : value) : M value :=
  if loosely_null kernelObj
  then throw (Thrown (VString "KernelObj being validated is NULL"))
  else
    let* kernelObj :=
      match kernelObj with
      | VString text =>
          let* parsed := parse text in
          match parsed with
          | None =>
              log ConsoleError ;;;
              throw (Thrown (VString "Failed to convert KernelObj from JSON string"))
          | Some decoded =>
              if loosely_null decoded
              then throw (Thrown (VString
                     "Invalid (NULL) KernelObj JSON string representation"))
              else ret decoded
          end
      | _ => ret kernelObj
      end in
    let* flag := get_value kernelObj "isKernelObj" in
    let* set := loosely_true flag in
    if negb set
    then throw (Thrown (VString "Failed missing isKernelObj flag check"))
    else ret kernelObj.

Definition missing_flag : exn :=
  Thrown (VString "Failed missing isKernelObj flag check").

(** The descriptor [d], in the store [s], that the flag check of lines
    287-289 sees for the argument [input] passed in the store [s0]: the
    argument itself, or what [JSON.parse] decoded from it. *)
Inductive presents : value -> store -> value -> store -> Prop :=
| presents_structured (d : value) (s : store) :
    (forall x, d <> VString x) -> presents d s d s
| presents_decoded (text : string) (s0 : store) (d : value) (h : list object) :
    JSON_parse text (heap s0) = Some (d, h) ->
    presents (VString text) s0 d {| heap := h; trace := trace s0 |}.

End Validation.

(** * Sample stores and hosts *)

Definition empty_store : store := {| heap := []; trace := [] |}.

Definition record (ps : list (string * value)) : object :=
  {| proto := ObjectPrototype; slot := Ordinary; props := ps |}.

(** The object [initWebGlDefaultOptions] builds. *)
Definition default_options : object :=
  record [("alpha", VBool false); ("depth", VBool false); ("antialias", VBool false)].

(** A host without [document], such as a plain Node.js process. *)
Definition headless : environment := {| document := None |}.

(** A canvas element whose [getContext] resolves no identifier, at 0. *)
Definition canvas_without_webgl : store :=
  {| heap := [ {| proto := CanvasPrototype;
                  slot := CanvasElement "CANVAS" [];
                  props := [] |} ];
     trace := [] |}.

(** [{}] at 0 *)
Definition empty_object_store : store :=
  {| heap := [ record [] ]; trace := [] |}.

(** [a = {}; a.self = a] at 0 *)
Definition self_store : store :=
  {| heap := [ record [("self", VObject 0)] ]; trace := [] |}.

(** [{a: new C()}] at 0, the instance of the class [C] at 1 *)
Definition instance_store : store :=
  {| heap := [ record [("a", VObject 1)];
               {| proto := ClassPrototype; slot := Ordinary; props := [] |} ];
     trace := [] |}.

(** [{a: {isActiveClone: null}}] at 0, the inner record at 1 *)
Definition marked_inner_store : store :=
  {| heap := [ record [("a", VObject 1)]; record [("isActiveClone", VNull)] ];
     trace := [] |}.

(** [Object.create(null)] with an own [isActiveClone], at 0 *)
Definition marked_dictionary_store : store :=
  {| heap := [ {| proto := NullPrototype; slot := Ordinary;
                  props := [("isActiveClone", VNull)] |} ];
     trace := [] |}.

(** [{isKernelObj: 1}] at 0 *)
Definition flag_one_store : store :=
  {| heap := [ record [("isKernelObj", VNumber 1%float)] ]; trace := [] |}.

(** [{isKernelObj: true, foo: 1}] at 0 *)
Definition kernel_store : store :=
  {| heap := [ record [("isKernelObj", VBool true); ("foo", VNumber 1%float)] ];
     trace := [] |}.

(** [{a: 1, b: {c: "x"}}] at 0, the inner record at 1 *)
Definition nested_store : store :=
  {| heap := [ record [("a", VNumber 1%float); ("b", VObject 1)];
               record [("c", VString "x")] ];
     trace := [] |}.

(** The canvas element [createElement('canvas')] makes, with own properties
    [ps]. *)
Definition canvas_element (n : string) (contexts : list (string * value))
    (ps : list (string * value)) : object :=
  {| proto := CanvasPrototype; slot := CanvasElement n contexts; props := ps |}.

(** A browser: the document at 0, whose canvases resolve both context
    identifiers to the rendering context at 1, which has two extensions. *)
Definition browser_store : store :=
  {| heap := [ {| proto := DocumentPrototype;
                  slot := Document "CANVAS" [("experimental-webgl", VObject 1);
                                             ("webgl", VObject 1)];
                  props := [] |};
               {| proto := WebGLPrototype;
                  slot := RenderingContext [("OES_texture_float", VObject 2);
                                            ("WEBGL_draw_buffers", VObject 2)];
                  props := [] |};
               record [] ];
     trace := [] |}.

(** A canvas element at 0 that resolves only 'webgl', to the context at 1. *)
Definition standard_only_store : store :=
  {| heap := [ canvas_element "canvas" [("webgl", VObject 1)] [];
               {| proto := WebGLPrototype;
                  slot := RenderingContext [("OES_element_index_uint", VObject 2)];
                  props := [] |};
               record [] ];
     trace := [] |}.


(** [Object.create({y: 2})] with an own [x: 1] at 0, its prototype at 1 *)
Definition inheriting_store : store :=
  {| heap := [ {| proto := UserPrototype 1; slot := Ordinary;
                  props := [("x", VNumber 1%float)] |};
               record [("y", VNumber 2%float)] ];
     trace := [] |}.

(** [Object.freeze({a: 1})] at 0, [Object.seal({})] at 1 *)
Definition frozen_store : store :=
  {| heap := [ {| proto := ObjectPrototype; slot := Restricted Frozen;
                  props := [("a", VNumber 1%float)] |};
               {| proto := ObjectPrototype; slot := Restricted Sealed; props := [] |} ];
     trace := [] |}.

(** A [JSON.parse] that decodes the texts [null] and [true] and the object
    text of [kernel_text], and throws on every other text. *)
Definition quote : string := String (Ascii.ascii_of_nat 34) EmptyString.

Definition kernel_text : string :=
  ("{" ++ quote ++ "isKernelObj" ++ quote ++ ":true}")%string.

Definition sample_JSON_parse (text : string) (h : list object)
  : option (value * list object) :=
  if String.eqb text "null" then Some (VNull, h)
  else if String.eqb text "true" then Some (VBool true, h)
  else if String.eqb text kernel_text
       then Some (VObject (length h),
                  (h ++ [record [("isKernelObj", VBool true)]])%list)
       else None.

(** A [StringToNumber] that reads the numeral [1] and gives NaN otherwise. *)
Definition sample_StringToNumber (x : string) : float :=
  if String.eqb x "1" then 1%float else nan.

(** * Notions the properties are stated with *)

(** ** The marker of [clone] *)

Definition marked (s : store) (l : loc) : bool :=
  has_own (heap s) l "isActiveClone".

Definition keeps_markers (rec : value -> M value) : Prop :=
  forall x s c s', rec x s = Ret c s' -> forall l, marked s' l = marked s l.

(** ** Trees, deep equality and nested records *)

(** The value graph below a value, read as a finite tree. *)
Inductive tree :=
| Leaf (v : value)
| Node (fields : list (string * tree)).

(** Keys under which [clone] does not copy a record field by field:
    [isActiveClone] is the marker itself, own [constructor] and
    [hasOwnProperty] shadow the methods [clone] calls, and an assignment to
    [__proto__] sets the prototype of the copy. *)
Definition reserved (k : string) : bool :=
  String.eqb k "isActiveClone" || String.eqb k "constructor"
  || String.eqb k "hasOwnProperty" || String.eqb k "__proto__".

(** A plain record: an ordinary, extensible object (not frozen, sealed or
    made non-extensible) inheriting from Object.prototype whose keys are
    distinct and not reserved. *)
Definition plain_shape (o : object) : bool :=
  bool_decide (proto o = ObjectPrototype)
  && match slot o with Ordinary => true | _ => false end
  && bool_decide (NoDup (props o).*1)
  && forallb (fun k => negb (reserved k)) (props o).*1.

Fixpoint denote_fields (f : value -> option tree) (ps : list (string * value))
  : option (list (string * tree)) :=
  match ps with
  | [] => Some []
  | (k, x) :: ps' =>
      match f x, denote_fields f ps' with
      | Some t, Some ts => Some ((k, t) :: ts)
      | _, _ => None
      end
  end.

(** [denote n h ok v]: the tree of depth at most [n] that [v] stands for in
    the heap [h], when every record below [v] is plain, lies at a location
    that [ok] admits and is not nested in itself (each record is excluded
    below itself); [None] otherwise. *)
Fixpoint denote (n : nat) (h : list object) (ok : loc -> bool) (v : value)
  : option tree :=
  match v with
  | VObject l =>
      match n with
      | 0 => None
      | S n' =>
          match h !! l with
          | Some o =>
              if ok l && plain_shape o
              then Node <$> denote_fields
                     (denote n' h (fun l' => negb (Nat.eqb l' l) && ok l')) (props o)
              else None
          | None => None
          end
      end
  | _ => Some (Leaf v)
  end.

(** [v] is an acyclic composite value of primitives and plain records. *)
Definition acyclic_plain (n : nat) (h : list object) (v : value) : Prop :=
  is_Some (denote n h (fun _ => true) v).

(** SameValueZero on primitives, identity on references. *)
Definition same_value (a b : value) : bool :=
  match a, b with
  | VNumber x, VNumber y => PrimFloat.eqb x y || (is_nan x && is_nan y)
  | _, _ => strict_equal a b
  end.

Fixpoint fields_equal (f : value -> value -> bool) (ps qs : list (string * value))
  : bool :=
  match ps, qs with
  | [], [] => true
  | (k, x) :: ps', (k', y) :: qs' =>
      String.eqb k k' && f x y && fields_equal f ps' qs'
  | _, _ => false
  end.

(** Deep equality to depth [n]: equal primitives, or two records with the
    same prototype and the same keys in the same order holding deep-equal
    values. *)
Fixpoint deep_equal (n : nat) (h : list object) (a b : value) : bool :=
  match a, b with
  | VObject la, VObject lb =>
      match n with
      | 0 => false
      | S n' =>
          match h !! la, h !! lb with
          | Some oa, Some ob =>
              bool_decide (proto oa = proto ob)
              && fields_equal (deep_equal n' h) (props oa) (props ob)
          | _, _ => false
          end
      end
  | VObject _, _ | _, VObject _ => false
  | _, _ => same_value a b
  end.

(** The records nested in [v], [v] itself included, to depth [n]. *)
Fixpoint nodes (n : nat) (h : list object) (v : value) : list loc :=
  match v with
  | VObject l =>
      l :: match n with
           | 0 => []
           | S n' =>
               match h !! l with
               | Some o => flat_map (nodes n' h) (props o).*2
               | None => []
               end
           end
  | _ => []
  end.

(** What holds between two turns of the loop of [clone] on the record [o] at
    [l] of the store [s0], the copy being built at [t0]: the records of [s0]
    are as they were, and the copy holds the clones [cloned] of the fields
    visited so far, which stand for the trees [ts] and lie above [t0]. *)
Definition copying (s0 : store) (t0 : loc) (n : nat)
    (cloned : list (string * value)) (ts : list (string * tree)) (s : store) : Prop :=
  (forall l' o', heap s0 !! l' = Some o' -> heap s !! l' = Some o')
  /\ heap s !! t0 = Some (record cloned)
  /\ denote_fields (denote n (heap s) (fun l' => (S t0 <=? l')%nat)) cloned = Some ts
  /\ trace s = trace s0.

(** What [clone] with room for [stack] nested calls achieves on values of
    depth [n]. *)
Definition clones (n stack : nat) : Prop :=
  forall ok s v t,
    denote n (heap s) ok v = Some t ->
    exists v' h',
      clone stack v s = Ret v' {| heap := h'; trace := trace s |}
      /\ (forall l o, heap s !! l = Some o -> h' !! l = Some o)
      /\ denote n h' (fun l => (length (heap s) <=? l)%nat) v' = Some t.

(** ** Host objects and outcomes *)

(** A canvas element of the host, with nothing of its own shadowing the
    members [isCanvas] and [initWebGl] read. *)
Definition host_canvas (o : object) (n : string) (contexts : list (string * value))
  : Prop :=
  proto o = CanvasPrototype /\ slot o = CanvasElement n contexts
  /\ own o "nodeName" = None /\ own o "getContext" = None.

(** A rendering context of the host that answers [getExtension] from
    [extensions]. *)
Definition host_context (o : object) (extensions : list (string * value)) : Prop :=
  proto o = WebGLPrototype /\ slot o = RenderingContext extensions
  /\ own o "getExtension" = None /\ own o "__proto__" = None.

(** A document of the host whose canvas elements have the node name [n] and
    resolve the context identifiers of [contexts]. *)
Definition host_document (o : object) (n : string) (contexts : list (string * value))
  : Prop :=
  proto o = DocumentPrototype /\ slot o = Document n contexts
  /\ own o "createElement" = None.

(** What [getExtension(name)] hands out. *)
Definition extension (extensions : list (string * value)) (name : string) : value :=
  default VNull (assoc name extensions).

(** The rendering context [o] once [initWebGl] has stored the three
    extensions on it. *)
Definition with_extensions (extensions : list (string * value)) (o : object)
  : object :=
  with_props o
    (assoc_set "OES_element_index_uint" (extension extensions "OES_element_index_uint")
       (assoc_set "OES_texture_float_linear"
          (extension extensions "OES_texture_float_linear")
          (assoc_set "OES_texture_float" (extension extensions "OES_texture_float")
             (props o)))).

(** The call stack had room for the computation: it returned, or threw
    something other than the engine's RangeError. *)
Definition fits {A} (out : outcome A) : Prop :=
  forall s', out <> Throw RangeError s'.

(** The store a computation ends in, by return or by throw. *)
Definition final {A} (out : outcome A) : store :=
  match out with
  | Ret _ s => s
  | Throw _ s => s
  end.

(** A recursive call that, when it returns, has made no host call and left
    every object that existed as it was. *)
Definition keeps_heap (rec : value -> M value) : Prop :=
  forall x s c s', rec x s = Ret c s' ->
    trace s' = trace s /\ forall l o, heap s !! l = Some o -> heap s' !! l = Some o.

(** The first [n] objects of the heap refer only to each other. *)
Definition closed (n : nat) (h : list object) : Prop :=
  forall l o l', l < n -> h !! l = Some o -> VObject l' ∈ (props o).*2 -> l' < n.

(** * Properties *)

(** ** Lookup *)

Lemma find_member_eq (fuel : nat) (h : list object) (l : loc) (k : string) :
  find_member fuel h l k =
  match h !! l with
  | None => Absent
  | Some o =>
      match own o k with
      | Some v => Data v
      | None =>
          match proto o with
          | UserPrototype l' =>
              match fuel with
              | 0 => Absent
              | S fuel' => find_member fuel' h l' k
              end
          | p => builtin_member p k
          end
      end
  end.
Proof. destruct fuel; reflexivity. Qed.

Lemma class_tag_eq (fuel : nat) (h : list object) (l : loc) :
  class_tag fuel h l =
  match proto <$> h !! l with
  | Some (UserPrototype l') =>
      match fuel with 0 => "Object" | S fuel' => class_tag fuel' h l' end
  | Some CanvasPrototype => "HTMLCanvasElement"
  | Some WebGLPrototype => "WebGLRenderingContext"
  | Some DocumentPrototype => "HTMLDocument"
  | _ => "Object"
  end.
Proof. destruct fuel; reflexivity. Qed.

Lemma for_in_keys_eq (fuel : nat) (h : list object) (l : loc) :
  for_in_keys fuel h l =
  match h !! l with
  | None => []
  | Some o =>
      ((props o).*1 ++
       match proto o with
       | UserPrototype l' =>
           match fuel with
           | 0 => []
           | S fuel' => list_difference (for_in_keys fuel' h l') (props o).*1
           end
       | _ => []
       end)%list
  end.
Proof. destruct fuel; reflexivity. Qed.

(** A record whose prototype is a built-in one takes every member it does
    not own from that prototype. *)
Lemma find_member_builtin (fuel : nat) (h : list object) (l : loc) (o : object)
    (k : string) :
  h !! l = Some o -> own o k = None ->
  (forall l', proto o <> UserPrototype l') ->
  find_member fuel h l k = builtin_member (proto o) k.
Proof.
  intros Hl Ho Hp. rewrite find_member_eq, Hl, Ho.
  destruct (proto o); try reflexivity. exfalso. by eapply Hp.
Qed.

Lemma bind_eq {A B} (m : M A) (k : A -> M B) (s s1 : store) (a : A) :
  m s = Ret a s1 -> bind m k s = k a s1.
Proof. unfold bind. by intros ->. Qed.

(** ** Module initialisation and initWebGl *)

Lemma initWebGl_unsupported (c v : value) (s : store) :
  truthy c = false ->
  typeof c <> "undefined" \/ v = VNull ->
  initWebGl c v s = Ret VNull s.
Proof.
  intros Hc Hu. unfold initWebGl. rewrite Hc. simpl.
  destruct Hu as [Hu | ->].
  - destruct c; simpl in *; try reflexivity. congruence.
  - simpl. rewrite orb_true_r. reflexivity.
Qed.

(** C1 (evaluation at the failing host): without a [document] the support
    flag is false, [initCanvas] and [initWebGl] both give null and [isWebGl]
    gives false, and then line 306 reads [getExtension] of that null: the
    initialisation throws a TypeError instead of recording the remaining
    fields as false or absent. *)
Theorem module_init_headless_throws (s : store) :
  initCanvas headless (VBool false) s = Ret VNull s
  /\ initWebGl (VBool false) VNull s = Ret VNull s
  /\ isWebGl VNull s = Ret (VBool false) s
  /\ module_init headless s = Throw TypeError s.
Proof. repeat split; reflexivity. Qed.

Lemma get_prop_canvas_nodeName (s : store) (l : loc) (n : string)
    (contexts : list (string * value)) :
  heap s !! l = Some {| proto := CanvasPrototype;
                        slot := CanvasElement n contexts; props := [] |} ->
  get_prop (VObject l) "nodeName" s = Ret (Val (VString n)) s.
Proof.
  intros Hl. unfold get_prop, member.
  rewrite (find_member_builtin _ _ _ _ _ Hl) by (done || discriminate).
  simpl. by rewrite Hl.
Qed.

Lemma get_prop_canvas_getContext (s : store) (l : loc) (n : string)
    (contexts : list (string * value)) :
  heap s !! l = Some {| proto := CanvasPrototype;
                        slot := CanvasElement n contexts; props := [] |} ->
  get_prop (VObject l) "getContext" s = Ret (Fun GetContext) s.
Proof.
  intros Hl. unfold get_prop, member.
  by rewrite (find_member_builtin _ _ _ _ _ Hl) by (done || discriminate).
Qed.

(** A host canvas element answers [isCanvas] with [true] when its node name
    upper-cases to CANVAS. *)
Lemma isCanvas_canvas_element (s : store) (l : loc) (n : string)
    (contexts : list (string * value)) :
  heap s !! l = Some {| proto := CanvasPrototype;
                        slot := CanvasElement n contexts; props := [] |} ->
  toUpperCase n = "CANVAS" ->
  isCanvas (VObject l) s = Ret (VBool true) s.
Proof.
  intros Hl Hn.
  assert (Hne : String.eqb n "" = false) by by destruct n.
  unfold isCanvas. cbn [is_null].
  rewrite (bind_eq _ _ _ _ _ (get_prop_canvas_nodeName s l n contexts Hl)).
  cbn [rtruthy truthy]. rewrite Hne. cbn [negb].
  rewrite (bind_eq _ _ _ _ _ (get_prop_canvas_getContext s l n contexts Hl)).
  cbn [rtruthy negb].
  rewrite (bind_eq _ _ _ _ _ (get_prop_canvas_nodeName s l n contexts Hl)).
  unfold bind, invoke_on, rmember, member. simpl. unfold ret.
  by rewrite Hn.
Qed.

Lemma getContext_with_defaults_canvas_element (s : store) (l : loc) (n id : string)
    (contexts : list (string * value)) :
  heap s !! l = Some {| proto := CanvasPrototype;
                        slot := CanvasElement n contexts; props := [] |} ->
  getContext_with_defaults (VObject l) id s
  = Ret (default VNull (assoc id contexts))
        {| heap := heap s ++ [default_options];
           trace := trace s ++ [GetContextCall l id (VObject (length (heap s)))] |}.
Proof.
  intros Hl. unfold getContext_with_defaults.
  rewrite (bind_eq _ _ _ _ _ (get_prop_canvas_getContext s l n contexts Hl)).
  unfold bind, initWebGlDefaultOptions, alloc, apply, log, ret. simpl.
  by rewrite (lookup_app_l_Some _ _ _ _ Hl).
Qed.

(** Calling a method on a falsy value throws: undefined and null have no
    members, and the other falsy values are primitives without a
    [getExtension]. *)
Lemma invoke_getExtension_falsy (v : value) (name : string) (s : store) :
  truthy v = false -> invoke v (CallGetExtension name) s = Throw TypeError s.
Proof. intros Hv. by destruct v. Qed.

(** C2 (the failing inputs): on every host canvas element whose [getContext]
    resolves neither identifier, once canvas support is detected,
    [initWebGl] asks for 'experimental-webgl' and then for 'webgl', each with
    a fresh default options object, and then throws a TypeError on
    [webGl.getExtension] instead of returning null. *)
Theorem initWebGl_without_context_throws (c : value) (s : store) (l : loc)
    (n : string) (contexts : list (string * value)) :
  truthy c = true ->
  heap s !! l = Some {| proto := CanvasPrototype;
                        slot := CanvasElement n contexts; props := [] |} ->
  toUpperCase n = "CANVAS" ->
  truthy (default VNull (assoc "experimental-webgl" contexts)) = false ->
  truthy (default VNull (assoc "webgl" contexts)) = false ->
  isCanvas (VObject l) s = Ret (VBool true) s
  /\ initWebGl c (VObject l) s
     = Throw TypeError
         {| heap := heap s ++ [default_options; default_options];
            trace := trace s
                     ++ [ GetContextCall l "experimental-webgl"
                            (VObject (length (heap s)));
                          GetContextCall l "webgl"
                            (VObject (S (length (heap s)))) ] |}.
Proof.
  intros Hc Hl Hn He Hw.
  pose proof (isCanvas_canvas_element s l n contexts Hl Hn) as Hvalid.
  split; [exact Hvalid|].
  unfold initWebGl. rewrite Hc, andb_false_r.
  rewrite (bind_eq _ _ _ _ _ Hvalid). cbn [truthy negb].
  rewrite (bind_eq _ _ _ _ _
             (getContext_with_defaults_canvas_element s l n _ contexts Hl)).
  rewrite He.
  set (s1 := {| heap := heap s ++ [default_options]; trace := _ |}).
  assert (Hl1 : heap s1 !! l
                = Some {| proto := CanvasPrototype;
                          slot := CanvasElement n contexts; props := [] |})
    by by apply lookup_app_l_Some.
  rewrite (bind_eq _ _ _ _ _
             (getContext_with_defaults_canvas_element s1 l n _ contexts Hl1)).
  unfold store_extension, bind.
  rewrite invoke_getExtension_falsy by done.
  simpl. rewrite length_app, <- !app_assoc. simpl.
  by rewrite Nat.add_1_r.
Qed.

Lemma initWebGl_without_context_throws_witness :
  initWebGl (VBool true) (VObject 0) canvas_without_webgl
  = Throw TypeError
      {| heap := heap canvas_without_webgl ++ [default_options; default_options];
         trace := [ GetContextCall 0 "experimental-webgl" (VObject 1);
                    GetContextCall 0 "webgl" (VObject 2) ] |}.
Proof.
  apply (initWebGl_without_context_throws (VBool true) canvas_without_webgl 0
           "CANVAS" []); reflexivity.
Defined.

(** C3 (counterexample): with canvas support undetected, [initWebGl(null)]
    returns null although [isCanvas(null)] is false. *)
Lemma initWebGl_null_unsupported_returns :
  isCanvas VNull empty_store = Ret (VBool false) empty_store
  /\ initWebGl (VBool false) VNull empty_store = Ret VNull empty_store.
Proof. split; reflexivity. Qed.

(** C3 (amended): once canvas support is detected, [initWebGl] throws
    [new Error('Invalid canvas object - ' + canvasObj)] for every argument
    that [isCanvas] answers with a falsy value and that converts to a
    primitive for the message; so it does for null, for an empty record and
    for every string.  Without canvas support it returns null. *)
Theorem initWebGl_invalid_canvas (c : value) (s : store) :
  truthy c = true ->
  (forall v r p,
      isCanvas v s = Ret r s -> truthy r = false -> ToPrimitive v s = Ret p s ->
      initWebGl c v s = Throw (Error "Invalid canvas object - " p) s)
  /\ initWebGl c VNull s = Throw (Error "Invalid canvas object - " VNull) s
  /\ (forall l, heap s !! l = Some (record []) ->
        initWebGl c (VObject l) s
        = Throw (Error "Invalid canvas object - " (VString "[object Object]")) s)
  /\ (forall x,
        initWebGl c (VString x) s
        = Throw (Error "Invalid canvas object - " (VString x)) s)
  /\ (forall v, initWebGl (VBool false) v s = Ret VNull s).
Proof.
  intros Hc.
  assert (Hgen : forall v r p,
      isCanvas v s = Ret r s -> truthy r = false -> ToPrimitive v s = Ret p s ->
      initWebGl c v s = Throw (Error "Invalid canvas object - " p) s).
  { intros v r p Hr Hf Hp. unfold initWebGl. rewrite Hc, andb_false_r.
    unfold bind. rewrite Hr, Hf. simpl. rewrite Hp. reflexivity. }
  split; [exact Hgen|]. split; [|split; [|split]].
  - apply (Hgen VNull (VBool false)); reflexivity.
  - intros l Hl. apply (Hgen (VObject l) VUndefined); [|reflexivity|].
    + unfold isCanvas, bind, get_prop, member. simpl.
      rewrite (find_member_builtin _ _ _ _ _ Hl) by (done || discriminate).
      reflexivity.
    + unfold ToPrimitive.
      rewrite (find_member_builtin _ _ _ _ _ Hl) by (done || discriminate).
      simpl. rewrite class_tag_eq, Hl. reflexivity.
  - intros x. apply (Hgen (VString x) VUndefined); reflexivity.
  - intros v. apply initWebGl_unsupported; [reflexivity|left; discriminate].
Qed.

Lemma initWebGl_invalid_canvas_witness :
  initWebGl (VBool true) VNull empty_store
  = Throw (Error "Invalid canvas object - " VNull) empty_store.
Proof.
  apply (proj1 (initWebGl_invalid_canvas (VBool true) empty_store eq_refl)
           VNull (VBool false) VNull); reflexivity.
Defined.

(** ** isCanvas *)

(** C9 (evaluation at the failing inputs): [isCanvas(undefined)] throws a
    TypeError, since only [null] is tested before [nodeName] is read, and
    [isCanvas({})] and [isCanvas] of a string return [undefined], not a
    boolean. *)
Theorem isCanvas_not_boolean (s : store) :
  isCanvas VUndefined s = Throw TypeError s
  /\ isCanvas (VObject 0) empty_object_store = Ret VUndefined empty_object_store
  /\ (forall x, isCanvas (VString x) s = Ret VUndefined s).
Proof. repeat split; reflexivity. Qed.

(** ** Stores *)

Lemma assoc_set_other {k k' : string} (x : value) (ps : list (string * value)) :
  k' <> k -> assoc k' (assoc_set k x ps) = assoc k' ps.
Proof.
  intros Hne. induction ps as [|[k0 v0] ps IH]; simpl.
  - destruct (String.eqb_spec k' k); [done|reflexivity].
  - destruct (String.eqb_spec k k0) as [->|Hk]; simpl.
    + destruct (String.eqb_spec k' k0); [done|reflexivity].
    + destruct (String.eqb_spec k' k0); [reflexivity|exact IH].
Qed.

Lemma assoc_app_absent {A} (k : string) (ps qs : list (string * A)) :
  assoc k ps = None -> assoc k (ps ++ qs) = assoc k qs.
Proof.
  induction ps as [|[k0 v0] ps IH]; simpl; [done|].
  destruct (String.eqb k k0); [discriminate|exact IH].
Qed.

Lemma assoc_app_present {A} (k : string) (ps qs : list (string * A)) (v : A) :
  assoc k ps = Some v -> assoc k (ps ++ qs) = Some v.
Proof.
  induction ps as [|[k0 v0] ps IH]; simpl; [done|].
  destruct (String.eqb k k0); [done|exact IH].
Qed.

Lemma assoc_snoc_other {A} (k k' : string) (x : A) (ps : list (string * A)) :
  k' <> k -> assoc k' (ps ++ [(k, x)]) = assoc k' ps.
Proof.
  intros Hne. induction ps as [|[k0 v0] ps IH]; simpl.
  - destruct (String.eqb_spec k' k); [done|reflexivity].
  - destruct (String.eqb k' k0); [reflexivity|exact IH].
Qed.

Lemma assoc_remove_same (k : string) (ps : list (string * value)) :
  assoc k (assoc_remove k ps) = None.
Proof.
  induction ps as [|[k0 v0] ps IH]; simpl; [done|].
  destruct (String.eqb_spec k k0) as [->|Hk]; simpl; [exact IH|].
  destruct (String.eqb_spec k k0); [done|exact IH].
Qed.

Lemma assoc_remove_other (k k' : string) (ps : list (string * value)) :
  k' <> k -> assoc k' (assoc_remove k ps) = assoc k' ps.
Proof.
  intros Hne. induction ps as [|[k0 v0] ps IH]; simpl; [done|].
  destruct (String.eqb_spec k k0) as [->|Hk]; simpl.
  - destruct (String.eqb_spec k' k0); [done|exact IH].
  - destruct (String.eqb k' k0); [reflexivity|exact IH].
Qed.

Lemma assoc_remove_absent (k : string) (ps : list (string * value)) :
  assoc k ps = None -> assoc_remove k ps = ps.
Proof.
  induction ps as [|[k0 v0] ps IH]; simpl; [done|].
  destruct (String.eqb k k0); [discriminate|]. intros H. by rewrite IH.
Qed.

Lemma assoc_remove_snoc (k : string) (x : value) (ps : list (string * value)) :
  assoc k ps = None -> assoc_remove k (ps ++ [(k, x)]) = ps.
Proof.
  induction ps as [|[k0 v0] ps IH]; simpl.
  - by rewrite String.eqb_refl.
  - destruct (String.eqb k k0); [discriminate|]. intros H. by rewrite IH.
Qed.

Lemma assoc_None_fst {A} (k : string) (ps : list (string * A)) :
  assoc k ps = None <-> k ∉ ps.*1.
Proof.
  induction ps as [|[k0 v0] ps IH]; simpl.
  - split; [intros _; apply not_elem_of_nil|done].
  - rewrite not_elem_of_cons. destruct (String.eqb_spec k k0) as [->|Hk].
    + split; [discriminate|]. intros [? _]. done.
    + rewrite IH. tauto.
Qed.

Lemma update_lookup (l l' : loc) (f : object -> object) (s : store) :
  heap (update l f s) !! l'
  = if decide (l = l') then f <$> heap s !! l' else heap s !! l'.
Proof.
  unfold update. destruct (heap s !! l) as [o|] eqn:Hl; simpl.
  - destruct (decide (l = l')) as [<-|Hne].
    + rewrite Hl. simpl. apply list_lookup_insert_eq. by eapply lookup_lt_Some.
    + by apply list_lookup_insert_ne.
  - destruct (decide (l = l')) as [<-|Hne]; [by rewrite Hl|done].
Qed.

Lemma update_length (l : loc) (f : object -> object) (s : store) :
  length (heap (update l f s)) = length (heap s).
Proof.
  unfold update. destruct (heap s !! l); simpl; [apply length_insert|done].
Qed.

Lemma update_trace (l : loc) (f : object -> object) (s : store) :
  trace (update l f s) = trace s.
Proof. unfold update. by destruct (heap s !! l). Qed.

(** No built-in prototype has a member named [isActiveClone], and only
    [__proto__] and [nodeName] are accessors. *)
Lemma builtin_member_accessor (p : prototype) (k : string) (a : accessor) :
  builtin_member p k = Accessor a ->
  (a = ProtoAccessor /\ k = "__proto__") \/ (a = NodeNameAccessor /\ k = "nodeName").
Proof.
  unfold builtin_member, builtin_own_member, object_prototype_member.
  destruct p; try discriminate;
    repeat match goal with
      | |- context [String.eqb k ?x] => destruct (String.eqb_spec k x) as [->|?]
      end;
    try discriminate; intros [= <-]; auto.
Qed.

Lemma find_member_accessor (fuel : nat) (h : list object) (l : loc) (k : string)
    (a : accessor) :
  find_member fuel h l k = Accessor a ->
  (a = ProtoAccessor /\ k = "__proto__") \/ (a = NodeNameAccessor /\ k = "nodeName").
Proof.
  revert l. induction fuel as [|fuel IH]; intros l; rewrite find_member_eq;
    destruct (h !! l) as [o|]; try discriminate;
    destruct (own o k); try discriminate;
    destruct (proto o) eqn:Hp; try discriminate;
    try (rewrite <- Hp; apply builtin_member_accessor); try apply IH.
  all: try (intros H; apply (builtin_member_accessor _ _ _ H)).
Qed.

(** ** Steps of the computations *)

Lemma bind_Ret {A B} (m : M A) (k : A -> M B) (s s' : store) (b : B) :
  bind m k s = Ret b s' ->
  exists a s1, m s = Ret a s1 /\ k a s1 = Ret b s'.
Proof.
  unfold bind. destruct (m s) as [a s1|]; try discriminate. eauto.
Qed.

Tactic Notation "bind_inv" hyp(H) "as" ident(a) ident(s) ident(H1) :=
  apply bind_Ret in H; destruct H as (a & s & H1 & H).

Lemma invoke_hasOwnProperty_Ret (this : rvalue) (k : string) (s s' : store)
    (r : value) :
  invoke_on this (CallHasOwnProperty k) s = Ret r s' ->
  s' = s /\ r = VBool (has_own_member (heap s) this k).
Proof.
  unfold invoke_on. destruct (rmember _ _ _) as [[ |f| | ]|]; try discriminate.
  destruct f; try discriminate. simpl.
  destruct this as [[]| |]; intros [= <- <-]; auto.
Qed.

Lemma invoke_constructor_Ret (this : rvalue) (s s' : store) (r : value) :
  invoke_on this CallConstructor s = Ret r s' ->
  r = VObject (length (heap s))
  /\ s' = {| heap := heap s ++ [plain_object]; trace := trace s |}.
Proof.
  unfold invoke_on. destruct (rmember _ _ _) as [[ |f| | ]|]; try discriminate.
  destruct f; try discriminate. unfold apply, alloc. intros [= <- <-]; auto.
Qed.

Lemma get_prop_store (v : value) (k : string) (s s' : store) (r : rvalue) :
  get_prop v k s = Ret r s' -> s' = s.
Proof.
  unfold get_prop. destruct (member _ _ _) as [[ | |[]| ]|]; try discriminate;
    try (intros [= _ <-]; reflexivity).
  - destruct (proto_of _ _) as [[]|]; try discriminate; by intros [= _ <-].
  - destruct v; try discriminate.
    destruct (slot <$> _) as [[]|]; try discriminate; by intros [= _ <-].
Qed.

Lemma get_value_store (v : value) (k : string) (s s' : store) (x : value) :
  get_value v k s = Ret x s' -> s' = s.
Proof.
  unfold get_value. intros H. bind_inv H as r s1 Hr.
  apply get_prop_store in Hr as ->.
  destruct r; try discriminate. by injection H as _ <-.
Qed.

Lemma get_value_own (l : loc) (k : string) (s : store) (o : object) (x : value) :
  heap s !! l = Some o -> own o k = Some x ->
  get_value (VObject l) k s = Ret x s.
Proof.
  intros Hl Ho. unfold get_value, bind, get_prop, member.
  by rewrite find_member_eq, Hl, Ho.
Qed.

(** An assignment to [k] leaves the own properties of other names alone. *)
Lemma put_own_other (v : value) (k k' : string) (x : value) (s s' : store) (u : unit) :
  put v k x s = Ret u s' -> k' <> k ->
  forall l, has_own (heap s') l k' = has_own (heap s) l k'.
Proof.
  destruct u. intros H Hne l. unfold put in H.
  destruct v as [| | | | |l0]; try discriminate.
  destruct (heap s !! l0) as [o|] eqn:Hl0; try discriminate.
  assert (Hup : forall f, (forall o, own (f o) k' = own o k') ->
            has_own (heap (update l0 f s)) l k' = has_own (heap s) l k').
  { intros f Hf. unfold has_own. rewrite update_lookup.
    destruct (decide (l0 = l)) as [<-|]; [|done]. rewrite Hl0. simpl. by rewrite Hf. }
  destruct (own o k).
  { destruct (frozen o); [discriminate|].
    injection H as <-. apply Hup. intros o'. unfold own. simpl.
    by apply assoc_set_other. }
  destruct (find_member _ _ _ _) as [ | |[]| ]; try discriminate;
    try (destruct (extensible o && writable_member _ _ _ _); [|discriminate];
         injection H as <-; apply Hup; intros o'; unfold own; simpl;
         by apply assoc_snoc_other).
  destruct x; unfold set_proto in H;
    try destruct (bool_decide _ || _); try discriminate;
    injection H as <-; try reflexivity; by apply Hup.
Qed.

Lemma writable_member_eq (fuel : nat) (h : list object) (l : loc) (k : string) :
  writable_member fuel h l k =
  match h !! l with
  | None => true
  | Some o =>
      match own o k with
      | Some _ => negb (frozen o)
      | None =>
          match proto o with
          | UserPrototype l' =>
              match fuel with
              | 0 => true
              | S fuel' => writable_member fuel' h l' k
              end
          | _ => true
          end
      end
  end.
Proof. destruct fuel; reflexivity. Qed.

(** What an object with a built-in prototype does not own is writable: the
    members of the built-in prototypes are. *)
Lemma writable_member_builtin (fuel : nat) (h : list object) (l : loc) (o : object)
    (k : string) :
  h !! l = Some o -> own o k = None ->
  (forall l', proto o <> UserPrototype l') ->
  writable_member fuel h l k = true.
Proof.
  intros Hl Ho Hp. rewrite writable_member_eq, Hl, Ho.
  destruct (proto o); try reflexivity. exfalso. by eapply Hp.
Qed.

Lemma put_append (l : loc) (k : string) (x : value) (s : store) (o : object) :
  heap s !! l = Some o -> own o k = None ->
  (forall a, find_member (length (heap s)) (heap s) l k <> Accessor a) ->
  extensible o = true ->
  writable_member (length (heap s)) (heap s) l k = true ->
  put (VObject l) k x s
  = Ret tt (update l (fun o => with_props o (props o ++ [(k, x)])) s).
Proof.
  intros Hl Ho Ha He Hw. unfold put. rewrite Hl, Ho, He, Hw.
  destruct (find_member _ _ _ _) as [ | |a| ]; try reflexivity.
  by destruct (Ha a).
Qed.

(** An assignment to a property of [t] that returns leaves the trace, the
    size of the heap and every other object alone. *)
Lemma put_frame (t : loc) (k : string) (x : value) (s s' : store) (u : unit) :
  put (VObject t) k x s = Ret u s' ->
  trace s' = trace s /\ length (heap s') = length (heap s)
  /\ forall l, l <> t -> heap s' !! l = heap s !! l.
Proof.
  assert (Hup : forall f,
            trace (update t f s) = trace s
            /\ length (heap (update t f s)) = length (heap s)
            /\ forall l, l <> t -> heap (update t f s) !! l = heap s !! l).
  { intros f. split; [apply update_trace|]. split; [apply update_length|].
    intros l Hl. rewrite update_lookup. by destruct (decide (t = l)). }
  unfold put. destruct (heap s !! t) as [o|]; try discriminate.
  destruct (own o k).
  { destruct (frozen o); [discriminate|]. intros [= _ <-]. apply Hup. }
  destruct (find_member _ _ _ _) as [ | |[]| ]; try discriminate;
    try (destruct (extensible o && writable_member _ _ _ _); [|discriminate];
         intros [= _ <-]; apply Hup).
  destruct x; unfold set_proto; try destruct (bool_decide _ || _);
    try discriminate; intros [= _ <-]; try apply Hup; done.
Qed.

Lemma delete_prop_Ret (l : loc) (k : string) (s s' : store) (u : unit) :
  delete_prop (VObject l) k s = Ret u s' ->
  s' = update l (fun o => with_props o (assoc_remove k (props o))) s.
Proof.
  unfold delete_prop. destruct (match heap s !! l with Some _ => _ | None => _ end);
    [discriminate|]. by intros [= <-].
Qed.

Lemma delete_prop_unsealed (l : loc) (k : string) (s : store) (o : object) :
  heap s !! l = Some o -> sealed o = false ->
  delete_prop (VObject l) k s
  = Ret tt (update l (fun o => with_props o (assoc_remove k (props o))) s).
Proof. intros Hl Ho. unfold delete_prop. by rewrite Hl, Ho. Qed.

Lemma extensible_unsealed (o : object) : extensible o = true -> sealed o = false.
Proof. unfold extensible, sealed. by destruct (slot o). Qed.

(** ** clone: the marker *)

Lemma alloc_marked (s : store) (l : loc) :
  marked {| heap := heap s ++ [plain_object]; trace := trace s |} l = marked s l.
Proof.
  unfold marked, has_own. simpl.
  destruct (decide (l < length (heap s))) as [Hlt|Hge].
  - by rewrite lookup_app_l.
  - rewrite lookup_app_r by lia. rewrite (lookup_ge_None_2 (heap s)) by lia.
    by destruct (l - length (heap s)) as [|[|n]].
Qed.

Lemma clone_key_markers (rec : value -> M value) (lo : loc) (temp : value)
    (key : string) (s s' : store) (u : unit) :
  keeps_markers rec ->
  marked s lo = false ->
  clone_key rec (VObject lo) temp key s = Ret u s' ->
  forall l, marked s' l = marked s l.
Proof.
  destruct u. intros Hrec Hlo H l. unfold clone_key in H.
  bind_inv H as mine s0 Hmine.
  unfold hasOwnProperty_call in Hmine. injection Hmine as <- <-.
  simpl in H. destruct (has_own (heap s) lo key) eqn:Hkey;
    [|by injection H as <-].
  assert (Hne : "isActiveClone" <> key).
  { intros <-. unfold marked in Hlo. congruence. }
  bind_inv H as u1 s1 Hmark. bind_inv H as x s2 Hx.
  apply get_value_store in Hx as ->.
  bind_inv H as c s3 Hc. bind_inv H as u2 s4 Hput.
  apply delete_prop_Ret in H as ->.
  apply Hrec in Hc. pose proof (put_own_other _ _ _ _ _ _ _ Hput Hne) as Hput'.
  unfold marked in *. unfold has_own at 1. rewrite update_lookup.
  destruct (decide (lo = l)) as [<-|Hl].
  - rewrite Hlo. destruct (heap s4 !! lo) as [o|]; [|reflexivity].
    simpl. unfold own. simpl. by rewrite assoc_remove_same.
  - fold (has_own (heap s4) l "isActiveClone").
    rewrite Hput', Hc. apply put_frame in Hmark as (_ & _ & Hfr).
    unfold has_own. by rewrite Hfr.
Qed.

Lemma for_each_markers (rec : value -> M value) (lo : loc) (temp : value)
    (keys : list string) (s s' : store) (u : unit) :
  keeps_markers rec ->
  marked s lo = false ->
  for_each keys (clone_key rec (VObject lo) temp) s = Ret u s' ->
  forall l, marked s' l = marked s l.
Proof.
  intros Hrec. revert s. induction keys as [|key keys IH]; intros s Hlo H l.
  - by injection H as _ <-.
  - simpl in H. bind_inv H as u1 s1 Hkey.
    pose proof (clone_key_markers _ _ _ _ _ _ _ Hrec Hlo Hkey) as Hk.
    rewrite (IH s1); [apply Hk| |exact H]. by rewrite Hk.
Qed.

Lemma clone_keeps_markers (stack : nat) : keeps_markers (clone stack).
Proof.
  induction stack as [|stack IH]; intros obj s c s' H l; [discriminate|].
  simpl in H.
  destruct (is_null obj || negb (String.eqb (typeof obj) "object")) eqn:Hty.
  { by injection H as _ <-. }
  destruct obj as [| | | | |lo]; try discriminate.
  bind_inv H as m s1 Hm. apply invoke_hasOwnProperty_Ret in Hm as [-> ->].
  simpl in H. destruct (has_own (heap s) lo "isActiveClone") eqn:Hm.
  { by injection H as _ <-. }
  bind_inv H as temp s1 Ht. apply invoke_constructor_Ret in Ht as [-> ->].
  bind_inv H as keys s2 Hk. unfold enumerate in Hk. injection Hk as <- <-.
  bind_inv H as u s3 Hloop. injection H as _ <-.
  erewrite for_each_markers; [apply alloc_marked|exact IH| |exact Hloop].
  by rewrite alloc_marked.
Qed.

(** C4 (evaluation at the failing input): cloning [{a: new C()}] marks the
    outer record (line 233), recurses into the instance, whose
    [constructor()] throws a TypeError, and the error propagates past the
    [delete] of line 235: the source was unmarked before the call and
    carries the marker after it. *)
Lemma clone_throw_leaves_marker :
  clone 3 (VObject 0) instance_store
  = Throw TypeError
      {| heap := [ record [("a", VObject 1); ("isActiveClone", VNull)];
                   {| proto := ClassPrototype; slot := Ordinary; props := [] |};
                   record [] ];
         trace := [] |}
  /\ marked instance_store 0 = false
  /\ marked {| heap := [ record [("a", VObject 1); ("isActiveClone", VNull)];
                         {| proto := ClassPrototype; slot := Ordinary; props := [] |};
                         record [] ];
               trace := [] |} 0 = true.
Proof. repeat split. Qed.

(** The exit on which line 235 runs: whenever [clone] returns, every object
    carries the marker exactly if it carried it before the call; so a source
    object that had no marker when the call began has none when the call
    returns. *)
Lemma clone_returns_normally_without_marker (stack : nat) (obj result : value)
    (s s' : store) :
  clone stack obj s = Ret result s' ->
  (forall l, marked s' l = marked s l)
  /\ (forall l, obj = VObject l -> marked s l = false -> marked s' l = false).
Proof.
  intros H. pose proof (clone_keeps_markers stack _ _ _ _ H) as Hk.
  split; [exact Hk|]. intros l _ Hl. by rewrite Hk.
Qed.

(** ** clone: acyclic plain records *)

Lemma denote_fields_mono (f g : value -> option tree) (ps : list (string * value))
    (ts : list (string * tree)) :
  (forall x t, f x = Some t -> g x = Some t) ->
  denote_fields f ps = Some ts -> denote_fields g ps = Some ts.
Proof.
  intros Hfg. revert ts. induction ps as [|[k x] ps IH]; intros ts; simpl; [done|].
  destruct (f x) as [t|] eqn:Hf; [|discriminate].
  destruct (denote_fields f ps) as [ts'|]; [|discriminate].
  intros [= <-]. by rewrite (Hfg _ _ Hf), (IH ts').
Qed.

Lemma denote_fields_app (f : value -> option tree) (ps qs : list (string * value))
    (ts us : list (string * tree)) :
  denote_fields f ps = Some ts -> denote_fields f qs = Some us ->
  denote_fields f (ps ++ qs) = Some (ts ++ us).
Proof.
  revert ts. induction ps as [|[k x] ps IH]; intros ts; simpl.
  - by intros [= <-].
  - destruct (f x) as [t|]; [|discriminate].
    destruct (denote_fields f ps) as [ts'|]; [|discriminate].
    intros [= <-] Hq. by rewrite (IH ts').
Qed.

Lemma denote_fields_keys (f : value -> option tree) (ps : list (string * value))
    (ts : list (string * tree)) :
  denote_fields f ps = Some ts -> ts.*1 = ps.*1.
Proof.
  revert ts. induction ps as [|[k x] ps IH]; intros ts; simpl.
  - by intros [= <-].
  - destruct (f x) as [t|]; [|discriminate].
    destruct (denote_fields f ps) as [ts'|]; [|discriminate].
    intros [= <-]. rewrite !fmap_cons. simpl. f_equal. by apply IH.
Qed.

(** A denotation survives every change of the heap that keeps the admitted
    records it reads, under any weaker admission. *)
Lemma denote_mono (n : nat) (h1 h2 : list object) (ok1 ok2 : loc -> bool)
    (v : value) (t : tree) :
  (forall l o, ok1 l = true -> h1 !! l = Some o -> ok2 l = true /\ h2 !! l = Some o) ->
  denote n h1 ok1 v = Some t -> denote n h2 ok2 v = Some t.
Proof.
  revert ok1 ok2 v t. induction n as [|n IH]; intros ok1 ok2 v t Hok;
    destruct v as [| | | | |l]; simpl; try done.
  destruct (h1 !! l) as [o|] eqn:Hl; [|discriminate].
  destruct (ok1 l) eqn:Hokl; [|discriminate].
  destruct (Hok l o Hokl Hl) as [-> ->]. simpl.
  destruct (plain_shape o); [|discriminate].
  destruct (denote_fields _ (props o)) as [ts|] eqn:Hts; [|discriminate].
  intros [= <-].
  erewrite denote_fields_mono; [reflexivity| |exact Hts].
  intros x t. apply IH. intros l' o' Hl' Ho'.
  apply andb_true_iff in Hl' as [Hne Hl']. rewrite Hne. simpl. by apply Hok.
Qed.

Lemma plain_shape_inv (o : object) :
  plain_shape o = true ->
  proto o = ObjectPrototype /\ slot o = Ordinary /\ NoDup (props o).*1
  /\ (forall k, k ∈ (props o).*1 -> reserved k = false).
Proof.
  unfold plain_shape. rewrite !andb_true_iff.
  intros [[[Hp Hs] Hn] Hr]. apply bool_decide_eq_true in Hp, Hn.
  repeat split; try done.
  - by destruct (slot o).
  - intros k Hk. rewrite forallb_forall in Hr.
    apply list_elem_of_In, Hr in Hk. by destruct (reserved k).
Qed.

Lemma plain_own_reserved (o : object) (k : string) :
  plain_shape o = true -> reserved k = true -> own o k = None.
Proof.
  intros Ho Hk. apply plain_shape_inv in Ho as (_ & _ & _ & Hr).
  apply assoc_None_fst. intros Hin. apply Hr in Hin. congruence.
Qed.

Lemma assoc_middle {A} (k : string) (x : A) (ps qs : list (string * A)) :
  k ∉ ps.*1 -> assoc k (ps ++ (k, x) :: qs) = Some x.
Proof.
  intros Hk. rewrite assoc_app_absent by by apply assoc_None_fst.
  simpl. by rewrite String.eqb_refl.
Qed.

Lemma object_prototype_accessor (k : string) (a : accessor) :
  builtin_member ObjectPrototype k = Accessor a -> k = "__proto__".
Proof.
  unfold builtin_member, builtin_own_member, object_prototype_member.
  repeat match goal with
    | |- context [String.eqb k ?x] => destruct (String.eqb_spec k x) as [->|?]
    end; try discriminate; done.
Qed.

Lemma invoke_hasOwnProperty_plain (s : store) (l : loc) (o : object) (k : string) :
  heap s !! l = Some o -> proto o = ObjectPrototype ->
  own o "hasOwnProperty" = None ->
  invoke (VObject l) (CallHasOwnProperty k) s = Ret (VBool (has_own (heap s) l k)) s.
Proof.
  intros Hl Hp Ho. unfold invoke, invoke_on, rmember, member. simpl.
  rewrite (find_member_builtin _ _ _ _ _ Hl Ho) by (rewrite Hp; discriminate).
  by rewrite Hp.
Qed.

Lemma invoke_constructor_plain (s : store) (l : loc) (o : object) :
  heap s !! l = Some o -> proto o = ObjectPrototype ->
  own o "constructor" = None ->
  invoke (VObject l) CallConstructor s
  = Ret (VObject (length (heap s)))
        {| heap := heap s ++ [plain_object]; trace := trace s |}.
Proof.
  intros Hl Hp Ho. unfold invoke, invoke_on, rmember, member. simpl.
  rewrite (find_member_builtin _ _ _ _ _ Hl Ho) by (rewrite Hp; discriminate).
  by rewrite Hp.
Qed.

Lemma enumerate_plain (s : store) (l : loc) (o : object) :
  heap s !! l = Some o -> proto o = ObjectPrototype ->
  enumerate (VObject l) s = Ret (props o).*1 s.
Proof.
  intros Hl Hp. unfold enumerate. rewrite for_in_keys_eq, Hl, Hp.
  by rewrite app_nil_r.
Qed.

Lemma clone_key_copies (n stack : nat) (s0 s : store) (l : loc) (o : object)
    (ok : loc -> bool) (k : string) (x : value) (tx : tree)
    (cloned : list (string * value)) (ts : list (string * tree)) :
  clones n stack ->
  heap s0 !! l = Some o -> plain_shape o = true ->
  (forall l', ok l' = true -> l' <> l) ->
  own o k = Some x -> k ∉ cloned.*1 ->
  denote n (heap s0) ok x = Some tx ->
  copying s0 (length (heap s0)) n cloned ts s ->
  exists c s',
    clone_key (clone stack) (VObject l) (VObject (length (heap s0))) k s = Ret tt s'
    /\ copying s0 (length (heap s0)) n (cloned ++ [(k, c)]) (ts ++ [(k, tx)]) s'.
Proof.
  intros IH Hl Ho Hok Hk Hfresh Hx (Hkeep & Ht0 & Hts & Htr).
  set (t0 := length (heap s0)) in *.
  pose proof (plain_shape_inv _ Ho) as (Hp & _ & _ & Hres).
  assert (Hlt : l < t0) by by eapply lookup_lt_Some.
  assert (Hkres : reserved k = false).
  { apply Hres. apply list_elem_of_fmap. exists (k, x). split; [done|].
    unfold own in Hk. clear -Hk. induction (props o) as [|[k0 v0] ps IHp];
      simpl in Hk; [discriminate|].
    destruct (String.eqb_spec k k0) as [->|?].
    - injection Hk as ->. left.
    - right. by apply IHp. }
  assert (Hmark : own o "isActiveClone" = None) by by apply plain_own_reserved.
  (* obj.isActiveClone = null *)
  set (s2 := update l (fun o => with_props o (props o ++ [("isActiveClone", VNull)])) s).
  assert (Hs2l : heap s2 !! l = Some (with_props o (props o ++ [("isActiveClone", VNull)]))).
  { unfold s2. rewrite update_lookup, decide_True by done. by rewrite (Hkeep _ _ Hl). }
  assert (Hs2 : forall l', l' <> l -> heap s2 !! l' = heap s !! l').
  { intros l' Hne. unfold s2. by rewrite update_lookup, decide_False. }
  assert (Hput1 : put (VObject l) "isActiveClone" VNull s = Ret tt s2).
  { pose proof (plain_shape_inv _ Ho) as (Hpo & Hso & _ & _).
    apply put_append with (o := o);
      [by apply Hkeep|done| |by unfold extensible; rewrite Hso|].
    - intros a Ha. apply find_member_accessor in Ha as [[_ ?]|[_ ?]]; discriminate.
    - apply (writable_member_builtin _ _ _ o); [by apply Hkeep|done|by rewrite Hpo]. }
  (* clone(obj[key]) *)
  assert (Hget : get_value (VObject l) k s2 = Ret x s2).
  { eapply get_value_own; [exact Hs2l|]. unfold own. simpl.
    by apply assoc_app_present. }
  destruct (IH ok s2 x tx) as (c & h3 & Hclone & Hext & Hc).
  { eapply denote_mono; [|exact Hx]. intros l' o' Hl' Ho'. split; [done|].
    rewrite Hs2 by by apply Hok. by apply Hkeep. }
  set (s3 := {| heap := h3; trace := trace s2 |}) in *.
  (* temp[key] = ... *)
  assert (Hs3t : heap s3 !! t0 = Some (record cloned)).
  { apply Hext. rewrite Hs2 by lia. exact Ht0. }
  set (s4 := update t0 (fun o => with_props o (props o ++ [(k, c)])) s3).
  assert (Hput2 : put (VObject t0) k c s3 = Ret tt s4).
  { apply put_append with (o := record cloned);
      [exact Hs3t|by apply assoc_None_fst| |reflexivity|].
    - intros a Ha.
      rewrite (find_member_builtin _ _ _ (record cloned) _ Hs3t) in Ha;
        [|by apply assoc_None_fst|discriminate].
      apply object_prototype_accessor in Ha as ->. discriminate.
    - apply (writable_member_builtin _ _ _ (record cloned));
        [exact Hs3t|by apply assoc_None_fst|discriminate]. }
  (* delete obj.isActiveClone *)
  set (s5 := update l (fun o => with_props o (assoc_remove "isActiveClone" (props o))) s4).
  assert (Hs5 : forall l', l' <> l -> l' <> t0 -> heap s5 !! l' = h3 !! l').
  { intros l' H1 H2. unfold s5, s4.
    by rewrite update_lookup, decide_False, update_lookup, decide_False. }
  exists c, s5. split.
  - unfold clone_key. rewrite (bind_eq _ _ s s true).
    2:{ unfold hasOwnProperty_call. simpl. unfold has_own.
        by rewrite (Hkeep _ _ Hl), Hk. }
    rewrite (bind_eq _ _ _ _ _ Hput1), (bind_eq _ _ _ _ _ Hget),
      (bind_eq _ _ _ _ _ Hclone), (bind_eq _ _ _ _ _ Hput2).
    apply (delete_prop_unsealed l _ s4
             (with_props o (props o ++ [("isActiveClone", VNull)]))).
    + assert (l < t0) by by eapply lookup_lt_Some.
      unfold s4. rewrite update_lookup, decide_False by lia. by apply Hext.
    + pose proof (plain_shape_inv _ Ho) as (_ & Hso & _ & _).
      unfold sealed. simpl. by rewrite Hso.
  - repeat split.
    + intros l' o' Hl'. destruct (decide (l' = l)) as [->|Hne].
      * unfold s5, s4. rewrite update_lookup, decide_True by done.
        rewrite update_lookup, decide_False by lia.
        simpl. rewrite (Hext _ _ Hs2l). simpl. unfold with_props. simpl.
        rewrite assoc_remove_snoc by done.
        rewrite Hl in Hl'. injection Hl' as <-. by destruct o.
      * assert (l' < t0) by by eapply lookup_lt_Some.
        rewrite Hs5 by lia. apply Hext. rewrite Hs2 by done. by apply Hkeep.
    + unfold s5, s4. rewrite update_lookup, decide_False by lia.
      rewrite update_lookup, decide_True by done. by rewrite Hs3t.
    + apply denote_fields_app.
      * eapply denote_fields_mono; [|exact Hts]. intros y ty.
        apply denote_mono. intros l' o' Hl' Ho'. split; [done|].
        apply Nat.leb_le in Hl'. rewrite Hs5 by lia.
        apply Hext. by rewrite Hs2 by lia.
      * cbn [denote_fields]. erewrite denote_mono; [reflexivity| |exact Hc].
        intros l' o' Hl' Ho'. apply Nat.leb_le in Hl'.
        assert (Hlen : t0 < length (heap s2)).
        { unfold s2. rewrite update_length. by eapply lookup_lt_Some. }
        split; [apply Nat.leb_le; lia|]. by rewrite Hs5 by lia.
    + unfold s5, s4. rewrite !update_trace. simpl. unfold s2.
      by rewrite update_trace.
Qed.

Lemma for_each_copies (n stack : nat) (s0 : store) (l : loc) (o : object)
    (ok : loc -> bool) :
  clones n stack ->
  heap s0 !! l = Some o -> plain_shape o = true ->
  (forall l', ok l' = true -> l' <> l) ->
  forall todo done cloned ts ts_todo s,
    props o = done ++ todo -> cloned.*1 = done.*1 ->
    denote_fields (denote n (heap s0) ok) todo = Some ts_todo ->
    copying s0 (length (heap s0)) n cloned ts s ->
    exists cloned' s',
      for_each todo.*1
        (clone_key (clone stack) (VObject l) (VObject (length (heap s0)))) s
      = Ret tt s'
      /\ cloned'.*1 = (props o).*1
      /\ copying s0 (length (heap s0)) n cloned' (ts ++ ts_todo) s'.
Proof.
  intros IH Hl Ho Hok.
  induction todo as [|[k x] todo IHt]; intros done cloned ts ts_todo s Hsplit Hkeys Hden Hinv.
  - injection Hden as <-. exists cloned, s. rewrite !app_nil_r in *.
    split; [reflexivity|]. split; [congruence|done].
  - simpl in Hden. destruct (denote n (heap s0) ok x) as [tx|] eqn:Hx; [|discriminate].
    destruct (denote_fields _ todo) as [ts'|] eqn:Hts'; [|discriminate].
    injection Hden as <-.
    pose proof (plain_shape_inv _ Ho) as (_ & _ & Hnd & _).
    rewrite Hsplit, fmap_app, fmap_cons in Hnd. simpl in Hnd.
    apply NoDup_app in Hnd as (_ & Hdis & _).
    assert (Hk : k ∉ done.*1).
    { intros Hin. apply (Hdis _ Hin). left. }
    destruct (clone_key_copies n stack s0 s l o ok k x tx cloned ts)
      as (c & s1 & Hstep & Hinv1); try done.
    { unfold own. rewrite Hsplit. by apply assoc_middle. }
    { by rewrite Hkeys. }
    destruct (IHt (done ++ [(k, x)]) (cloned ++ [(k, c)]) (ts ++ [(k, tx)]) ts' s1)
      as (cloned' & s' & Hloop & Hkeys' & Hinv'); try done.
    { by rewrite <- app_assoc. }
    { by rewrite !fmap_app, Hkeys. }
    exists cloned', s'. rewrite fmap_cons. simpl.
    rewrite (bind_eq _ _ _ _ _ Hstep). split; [exact Hloop|].
    split; [exact Hkeys'|]. by rewrite <- app_assoc in Hinv'.
Qed.

Lemma plain_shape_record (o : object) (ps : list (string * value)) :
  plain_shape o = true -> ps.*1 = (props o).*1 -> plain_shape (record ps) = true.
Proof.
  unfold plain_shape. simpl. intros H ->.
  rewrite !andb_true_iff in H. destruct H as [[_ Hn] Hr].
  by rewrite Hn, Hr.
Qed.

Lemma denote_primitive (n : nat) (h : list object) (ok : loc -> bool) (v : value) :
  (forall l, v <> VObject l) -> denote n h ok v = Some (Leaf v).
Proof. intros Hv. destruct n, v; try reflexivity; by destruct (Hv l). Qed.

Lemma clone_primitive (stack : nat) (v : value) (s : store) :
  (forall l, v <> VObject l) -> clone (S stack) v s = Ret v s.
Proof. intros Hv. destruct v; try reflexivity. by destruct (Hv l). Qed.

(** With room for more nested calls than the depth, [clone] copies an
    acyclic value of plain records into fresh records that stand for the
    same tree, and leaves every record of the store as it was. *)
Lemma clone_clones (n : nat) : forall stack, n < stack -> clones n stack.
Proof.
  induction n as [|n IH]; intros [|stack] Hstack ok s v t Hden; try lia.
  - destruct v as [| | | | |l]; try discriminate;
      injection Hden as <-; eexists _, (heap s); destruct s; by repeat split.
  - destruct v as [| | | | |l];
      try (injection Hden as <-; eexists _, (heap s); destruct s; by repeat split).
    simpl in Hden. destruct (heap s !! l) as [o|] eqn:Hl; [|discriminate].
    destruct (ok l && plain_shape o) eqn:Hokl; [|discriminate].
    apply andb_true_iff in Hokl as [Hokl Ho].
    destruct (denote_fields _ (props o)) as [ts|] eqn:Hts; [|discriminate].
    injection Hden as <-.
    pose proof (plain_shape_inv _ Ho) as (Hp & _ & _ & _).
    set (s1 := {| heap := heap s ++ [plain_object]; trace := trace s |}).
    assert (Hkeep : forall l' o', heap s !! l' = Some o' -> heap s1 !! l' = Some o').
    { intros l' o' Hl'. simpl. by apply lookup_app_l_Some. }
    destruct (for_each_copies n stack s l o _ (IH stack ltac:(lia)) Hl Ho
                (fun l' H => proj1 (Nat.eqb_neq l' l)
                   (proj1 (negb_true_iff _) (proj1 (proj1 (andb_true_iff _ _) H))))
                (props o) [] [] [] ts s1 eq_refl eq_refl Hts)
      as (cloned & s' & Hloop & Hkeys & Hkeep' & Ht0 & Hcl & Htr).
    { repeat split; try done. simpl. by rewrite list_lookup_middle. }
    exists (VObject (length (heap s))), (heap s'). split; [|split].
    + change (clone (S stack) (VObject l) s) with
        ((let* marked := invoke (VObject l) (CallHasOwnProperty "isActiveClone") in
          if truthy marked then ret (VObject l)
          else
            let* temp := invoke (VObject l) CallConstructor in
            let* keys := enumerate (VObject l) in
            for_each keys (clone_key (clone stack) (VObject l) temp) ;;;
            ret temp) s).
      rewrite (bind_eq _ _ _ _ _
                 (invoke_hasOwnProperty_plain s l o _ Hl Hp
                    (plain_own_reserved _ "hasOwnProperty" Ho eq_refl))).
      unfold has_own. rewrite Hl, (plain_own_reserved _ "isActiveClone" Ho eq_refl).
      simpl.
      rewrite (bind_eq _ _ _ _ _
                 (invoke_constructor_plain s l o Hl Hp
                    (plain_own_reserved _ "constructor" Ho eq_refl))).
      fold s1.
      rewrite (bind_eq _ _ _ _ _ (enumerate_plain s1 l o (Hkeep _ _ Hl) Hp)).
      rewrite (bind_eq _ _ _ _ _ Hloop).
      unfold ret. f_equal. destruct s'. simpl in Htr. by rewrite Htr.
    + exact Hkeep'.
    + simpl. rewrite Ht0, Nat.leb_refl, (plain_shape_record o cloned Ho Hkeys).
      simpl. erewrite denote_fields_mono; [reflexivity| |exact Hcl].
      intros x t. apply denote_mono. intros l' o' Hl' Ho'.
      apply Nat.leb_le in Hl'. split; [|done].
      apply andb_true_iff. split.
      * apply negb_true_iff, Nat.eqb_neq. lia.
      * apply Nat.leb_le. lia.
Qed.

Lemma same_value_refl (v : value) : same_value v v = true.
Proof.
  destruct v; simpl; try reflexivity.
  - by destruct b.
  - unfold is_nan. by destruct (PrimFloat.eqb f f).
  - apply String.eqb_refl.
  - apply Nat.eqb_refl.
Qed.

Lemma denote_fields_equal (f g : value -> option tree) (e : value -> value -> bool)
    (ps qs : list (string * value)) (ts : list (string * tree)) :
  (forall x y t, f x = Some t -> g y = Some t -> e x y = true) ->
  denote_fields f ps = Some ts -> denote_fields g qs = Some ts ->
  fields_equal e ps qs = true.
Proof.
  intros He. revert qs ts.
  induction ps as [|[k x] ps IH]; intros [|[k' y] qs] ts; simpl; try done.
  - destruct (g y), (denote_fields g qs); try discriminate. by intros [= <-].
  - destruct (f x), (denote_fields f ps); try discriminate. by intros [= <-].
  - destruct (f x) as [t|] eqn:Hf; [|discriminate].
    destruct (denote_fields f ps) as [ts1|] eqn:Hfs; [|discriminate].
    destruct (g y) as [t'|] eqn:Hg; [|discriminate].
    destruct (denote_fields g qs) as [ts2|] eqn:Hgs; [|discriminate].
    intros [= <-] [= -> -> ->].
    by rewrite String.eqb_refl, (He _ _ _ Hf Hg), (IH qs ts1).
Qed.

Lemma denote_object (n : nat) (h : list object) (ok : loc -> bool) (l : loc)
    (t : tree) :
  denote n h ok (VObject l) = Some t -> exists ts, t = Node ts.
Proof.
  destruct n; simpl; [done|].
  destruct (h !! l); [|done]. destruct (_ && _); [|done].
  destruct (denote_fields _ _) as [ts|]; [|done]. intros [= <-]. by exists ts.
Qed.

Lemma deep_equal_primitive (n : nat) (h : list object) (v : value) :
  (forall l, v <> VObject l) -> deep_equal n h v v = true.
Proof.
  intros Hv. destruct n, v; try apply same_value_refl; by destruct (Hv l).
Qed.

Lemma value_cases (v : value) :
  (exists l, v = VObject l) \/ (forall l, v <> VObject l).
Proof. destruct v; try (right; discriminate). left. by eexists. Qed.

(** Two values that stand for the same tree are deep-equal. *)
Lemma denote_deep_equal (n : nat) (h : list object) (ok1 ok2 : loc -> bool)
    (a b : value) (t : tree) :
  denote n h ok1 a = Some t -> denote n h ok2 b = Some t ->
  deep_equal n h a b = true.
Proof.
  revert ok1 ok2 a b t. induction n as [|n IH]; intros ok1 ok2 a b t Ha Hb;
    destruct (value_cases a) as [[la ->]|Hpa], (value_cases b) as [[lb ->]|Hpb];
    try discriminate;
    try (rewrite denote_primitive in Hb by done; injection Hb as <-;
         apply denote_object in Ha as [ts Ha]; discriminate);
    try (rewrite denote_primitive in Ha by done; injection Ha as <-;
         apply denote_object in Hb as [ts Hb]; discriminate);
    try (rewrite denote_primitive in Ha by done;
         rewrite denote_primitive in Hb by done;
         injection Ha as <-; injection Hb as ->;
         by apply deep_equal_primitive).
  simpl in *. destruct (h !! la) as [oa|]; [|done].
  destruct (ok1 la && plain_shape oa) eqn:Hoa; [|done].
  destruct (h !! lb) as [ob|]; [|done].
  destruct (ok2 lb && plain_shape ob) eqn:Hob; [|done].
  apply andb_true_iff in Hoa as [_ Hoa], Hob as [_ Hob].
  apply plain_shape_inv in Hoa as (-> & _), Hob as (-> & _).
  destruct (denote_fields _ (props oa)) as [ts|] eqn:Hta; [|done].
  destruct (denote_fields _ (props ob)) as [ts'|] eqn:Htb; [|done].
  injection Ha as <-. injection Hb as ->. simpl.
  eapply denote_fields_equal; [|exact Hta|exact Htb].
  intros x y tx. apply IH.
Qed.

Lemma denote_fields_elem (f : value -> option tree) (ps : list (string * value))
    (ts : list (string * tree)) (x : value) :
  denote_fields f ps = Some ts -> x ∈ ps.*2 -> is_Some (f x).
Proof.
  revert ts. induction ps as [|[k y] ps IH]; intros ts; simpl.
  - intros _ Hx. by apply elem_of_nil in Hx.
  - destruct (f y) as [t|] eqn:Hf; [|discriminate].
    destruct (denote_fields f ps) as [ts'|]; [|discriminate].
    intros _ Hx. apply elem_of_cons in Hx as [->|Hx]; [by rewrite Hf|].
    by apply (IH ts').
Qed.

(** Every record below a value that has a denotation is admitted. *)
Lemma denote_nodes (n : nat) (h : list object) (ok : loc -> bool) (v : value)
    (t : tree) :
  denote n h ok v = Some t -> forall l, l ∈ nodes n h v -> ok l = true.
Proof.
  revert ok v t. induction n as [|n IH]; intros ok v t Hv l Hl;
    destruct v as [| | | | |l0]; simpl in *;
    try (by apply elem_of_nil in Hl); try discriminate.
  destruct (h !! l0) as [o|]; [|discriminate].
  destruct (ok l0) eqn:Hok; [|discriminate]. simpl in Hv.
  destruct (plain_shape o); [|discriminate].
  destruct (denote_fields _ (props o)) as [ts|] eqn:Hts; [|discriminate].
  apply elem_of_cons in Hl as [->|Hl]; [done|].
  apply list_elem_of_In, in_flat_map in Hl as (x & Hx & Hl).
  apply list_elem_of_In in Hx, Hl.
  destruct (denote_fields_elem _ _ _ x Hts Hx) as [tx Htx].
  apply (IH _ _ _ Htx) in Hl. by apply andb_true_iff in Hl as [_ Hl].
Qed.

(** C7 (counterexample): in [{a: {isActiveClone: null}}] the inner record
    owns a property named [isActiveClone], so [clone] hands it over as it is:
    the copy at 2 holds the very record at 1 that the source holds. *)
Lemma clone_shares_marked_record :
  clone 3 (VObject 0) marked_inner_store
  = Ret (VObject 2)
      {| heap := heap marked_inner_store ++ [ record [("a", VObject 1)] ];
         trace := [] |}
  /\ nodes 2 (heap marked_inner_store ++ [ record [("a", VObject 1)] ]) (VObject 0)
     = [0; 1]
  /\ nodes 2 (heap marked_inner_store ++ [ record [("a", VObject 1)] ]) (VObject 2)
     = [2; 1].
Proof. repeat split. Qed.

(** C7 (amended): let [v] be an acyclic value of primitives and plain
    records, the records ordinary and extensible (none frozen, sealed or made
    non-extensible: line 233 could not mark it), with prototype
    Object.prototype and keys that are not reserved ([isActiveClone],
    [constructor], [hasOwnProperty], [__proto__]), nested [n] deep at most;
    and let the call stack have room for more than [n] nested calls of
    [clone] (on a deeper value the engine throws a RangeError).  Then [clone]
    returns; the result is deep-equal to [v], no record is nested both in [v]
    and in the result, every record of the store is as it was, and a
    primitive or null is returned as it is, the store unchanged. *)
Theorem clone_round_trip (n stack : nat) (s : store) (v : value) :
  acyclic_plain n (heap s) v -> n < stack ->
  exists v' s',
    clone stack v s = Ret v' s'
    /\ deep_equal n (heap s') v v' = true
    /\ (forall l, l ∈ nodes n (heap s') v -> l ∉ nodes n (heap s') v')
    /\ (forall l o, heap s !! l = Some o -> heap s' !! l = Some o)
    /\ ((forall l, v <> VObject l) -> v' = v /\ s' = s).
Proof.
  intros [t Ht] Hstack.
  destruct (clone_clones n stack Hstack _ s v t Ht) as (v' & h' & Hc & Hext & Hv').
  exists v', {| heap := h'; trace := trace s |}. simpl.
  assert (Hv : denote n h' (fun l => (l <? length (heap s))%nat) v = Some t).
  { eapply denote_mono; [|exact Ht]. intros l o _ Hl. split; [|by apply Hext].
    apply Nat.ltb_lt. by eapply lookup_lt_Some. }
  split; [exact Hc|]. split; [by eapply denote_deep_equal|].
  split; [|split; [exact Hext|]].
  - intros l Hl Hl'. apply (denote_nodes _ _ _ _ _ Hv) in Hl.
    apply (denote_nodes _ _ _ _ _ Hv') in Hl'.
    apply Nat.ltb_lt in Hl. apply Nat.leb_le in Hl'. lia.
  - intros Hp. destruct stack as [|stack]; [lia|].
    rewrite (clone_primitive stack v s Hp) in Hc. by injection Hc as <- <-.
Qed.

Lemma clone_round_trip_witness :
  exists v' s',
    clone 3 (VObject 0) nested_store = Ret v' s'
    /\ deep_equal 2 (heap s') (VObject 0) v' = true
    /\ (forall l, l ∈ nodes 2 (heap s') (VObject 0) -> l ∉ nodes 2 (heap s') v')
    /\ (forall l o, heap nested_store !! l = Some o -> heap s' !! l = Some o)
    /\ ((forall l, VObject 0 <> VObject l) -> v' = VObject 0 /\ s' = nested_store).
Proof.
  apply (clone_round_trip 2 3 nested_store (VObject 0)); [|lia].
  exists (Node [("a", Leaf (VNumber 1%float)); ("b", Node [("c", Leaf (VString "x"))])]).
  reflexivity.
Defined.

(** ** clone: marked and self-referential inputs *)

Lemma clone_object_eq (stack : nat) (l : loc) :
  clone (S stack) (VObject l)
  = (let* marked := invoke (VObject l) (CallHasOwnProperty "isActiveClone") in
     if truthy marked then ret (VObject l)
     else
       let* temp := invoke (VObject l) CallConstructor in
       let* keys := enumerate (VObject l) in
       for_each keys (clone_key (clone stack) (VObject l) temp) ;;;
       ret temp).
Proof. reflexivity. Qed.

(** C10 (evaluation at the failing input): a dictionary made by
    [Object.create(null)] that owns [isActiveClone] has no [hasOwnProperty]
    to call; line 227 calls [obj.hasOwnProperty], where line 232 uses
    [Object.prototype.hasOwnProperty.call], so [clone] throws a TypeError
    instead of returning the input. *)
Lemma clone_marked_dictionary_throws :
  marked marked_dictionary_store 0 = true
  /\ clone 1 (VObject 0) marked_dictionary_store
     = Throw TypeError marked_dictionary_store.
Proof. split; reflexivity. Qed.

(** Where line 227 finds the method of Object.prototype: an object that owns
    a property named [isActiveClone] is returned by [clone] as it is, whether
    or not a call higher up set the marker, and the store is left untouched:
    nothing is duplicated. *)
Lemma clone_marked_returns_where_inherited (stack : nat) (s : store) (l : loc) :
  marked s l = true ->
  find_member (length (heap s)) (heap s) l "hasOwnProperty" = Method HasOwnProperty ->
  clone (S stack) (VObject l) s = Ret (VObject l) s.
Proof.
  intros Hm Hh. rewrite clone_object_eq.
  unfold bind, invoke, invoke_on, rmember, member. simpl. rewrite Hh. simpl.
  unfold marked in Hm. by rewrite Hm.
Qed.

Lemma store_eq (a b : store) : heap a = heap b -> trace a = trace b -> a = b.
Proof. destruct a, b. simpl. by intros -> ->. Qed.

(** C5 (counterexample): for [a = {}; a.self = a] at 0 the clone is the new
    record at 1, and its [self] is the original [a], not the clone. *)
Lemma clone_self_is_original :
  clone 2 (VObject 0) self_store
  = Ret (VObject 1)
      {| heap := [ record [("self", VObject 0)]; record [("self", VObject 0)] ];
         trace := [] |}
  /\ get_value (VObject 1) "self"
       {| heap := [ record [("self", VObject 0)]; record [("self", VObject 0)] ];
          trace := [] |}
     = Ret (VObject 0)
         {| heap := [ record [("self", VObject 0)]; record [("self", VObject 0)] ];
            trace := [] |}
  /\ strict_equal (VObject 0) (VObject 1) = false.
Proof. repeat split. Qed.

(** C5 (amended): for a record [a] whose only property is [self], holding [a]
    itself, [clone(a)] returns whenever the call stack has room for two
    nested calls; the result is a new record whose [self] is the original
    [a], and [a], like the rest of the store, is as it was: it carries no
    marker. *)
Theorem clone_self_reference (stack : nat) (s : store) (l : loc) :
  heap s !! l = Some (record [("self", VObject l)]) ->
  clone (S (S stack)) (VObject l) s
  = Ret (VObject (length (heap s)))
        {| heap := heap s ++ [record [("self", VObject l)]]; trace := trace s |}
  /\ VObject (length (heap s)) <> VObject l
  /\ marked {| heap := heap s ++ [record [("self", VObject l)]]; trace := trace s |} l
     = false.
Proof.
  intros Hl. set (a := record [("self", VObject l)]) in *.
  assert (Hlt : l < length (heap s)) by by eapply lookup_lt_Some.
  set (s1 := {| heap := heap s ++ [plain_object]; trace := trace s |}).
  assert (Hl1 : heap s1 !! l = Some a) by by apply lookup_app_l_Some.
  set (a' := with_props a (props a ++ [("isActiveClone", VNull)])).
  set (s2 := update l (fun o => with_props o (props o ++ [("isActiveClone", VNull)])) s1).
  assert (Hl2 : heap s2 !! l = Some a').
  { unfold s2. by rewrite update_lookup, decide_True, Hl1. }
  assert (Ht2 : heap s2 !! length (heap s) = Some plain_object).
  { unfold s2. rewrite update_lookup, decide_False by lia.
    simpl. by rewrite list_lookup_middle. }
  set (s3 := update (length (heap s))
               (fun o => with_props o (props o ++ [("self", VObject l)])) s2).
  set (s4 := update l (fun o => with_props o (assoc_remove "isActiveClone" (props o))) s3).
  assert (Hfinal : s4 = {| heap := heap s ++ [a]; trace := trace s |}).
  { apply store_eq; [|unfold s4, s3, s2; by rewrite !update_trace].
    apply list_eq. intros i. unfold s4, s3. rewrite !update_lookup. simpl.
    destruct (decide (l = i)) as [<-|Hi].
    - rewrite decide_False by lia. rewrite Hl2. simpl.
      by rewrite lookup_app_l_Some with (x := a).
    - destruct (decide (length (heap s) = i)) as [<-|Hi'].
      + rewrite Ht2. simpl. by rewrite list_lookup_middle.
      + unfold s2. rewrite update_lookup, decide_False by done. simpl.
        destruct (decide (i < length (heap s))).
        * by rewrite !lookup_app_l.
        * rewrite !lookup_ge_None_2; [done| |]; rewrite length_app; simpl; lia. }
  assert (Hbody : clone_key (clone (S stack)) (VObject l) (VObject (length (heap s)))
                    "self" s1 = Ret tt s4).
  { unfold clone_key. rewrite (bind_eq _ _ s1 s1 true).
    2:{ unfold hasOwnProperty_call, has_own_member, has_own. by rewrite Hl1. }
    rewrite (bind_eq _ _ s1 s2 tt).
    2:{ apply put_append with (o := a); [done|done| |reflexivity|].
        - intros x Hx.
          apply find_member_accessor in Hx as [[_ ?]|[_ ?]]; discriminate.
        - by apply (writable_member_builtin _ _ _ a). }
    rewrite (bind_eq _ _ _ _ _ (get_value_own l "self" s2 a' (VObject l) Hl2 eq_refl)).
    rewrite (bind_eq _ _ s2 s2 (VObject l)).
    2:{ rewrite clone_object_eq.
        rewrite (bind_eq _ _ _ _ _
                   (invoke_hasOwnProperty_plain s2 l a' _ Hl2 eq_refl eq_refl)).
        unfold has_own. by rewrite Hl2. }
    rewrite (bind_eq _ _ s2 s3 tt).
    - apply (delete_prop_unsealed l _ s3 a'); [|reflexivity].
      unfold s3. by rewrite update_lookup, decide_False by lia.
    - apply put_append with (o := plain_object); [done|done| |reflexivity|].
      + intros x Hx.
        rewrite (find_member_builtin _ _ _ plain_object _ Ht2) in Hx;
          [discriminate|done|discriminate].
      + by apply (writable_member_builtin _ _ _ plain_object). }
  split; [|split].
  - rewrite clone_object_eq.
    rewrite (bind_eq _ _ _ _ _ (invoke_hasOwnProperty_plain s l a _ Hl eq_refl eq_refl)).
    unfold has_own. rewrite Hl. simpl.
    rewrite (bind_eq _ _ _ _ _ (invoke_constructor_plain s l a Hl eq_refl eq_refl)).
    fold s1. rewrite (bind_eq _ _ _ _ _ (enumerate_plain s1 l a Hl1 eq_refl)).
    rewrite (bind_eq _ _ s1 s4 tt); [by rewrite Hfinal|].
    simpl. by rewrite (bind_eq _ _ _ _ _ Hbody).
  - intros [= E]. lia.
  - unfold marked, has_own. simpl. by rewrite lookup_app_l_Some with (x := a).
Qed.

Lemma clone_self_reference_witness :
  clone 2 (VObject 0) self_store
  = Ret (VObject 1)
        {| heap := heap self_store ++ [record [("self", VObject 0)]];
           trace := trace self_store |}.
Proof. apply (clone_self_reference 0 self_store 0). reflexivity. Defined.

(** ** validateKernelObj *)

Section ValidationProperties.

Variable JSON_parse : string -> list object -> option (value * list object).
Variable StringToNumber : string -> float.

Abbreviation validate := (validateKernelObj JSON_parse StringToNumber).

Lemma ToPrimitive_store (v p : value) (s s' : store) :
  ToPrimitive v s = Ret p s' -> s' = s.
Proof.
  unfold ToPrimitive. destruct v; try by intros [= _ <-].
  destruct (find_member _ _ _ _) as [|[]| |]; try discriminate.
  by intros [= _ <-].
Qed.

(** Past the null checks and the decoding, the outcome is decided by
    [flag == true]. *)
Lemma validate_presented (input d flag : value) (s0 s : store) (b : bool) :
  presents JSON_parse input s0 d s -> loosely_null d = false ->
  get_value d "isKernelObj" s = Ret flag s ->
  loosely_true StringToNumber flag s = Ret b s ->
  validate input s0 = if b then Ret d s else Throw missing_flag s.
Proof.
  intros Hp Hd Hflag Hb. unfold validateKernelObj.
  destruct Hp as [d s Hns|text s0 d h Hparse].
  - rewrite Hd. rewrite (bind_eq _ _ s s d).
    2:{ destruct d; try reflexivity. by edestruct Hns. }
    rewrite (bind_eq _ _ _ _ _ Hflag), (bind_eq _ _ _ _ _ Hb).
    by destruct b.
  - unfold bind, parse. cbn -[get_value loosely_true].
    rewrite Hparse, Hd. unfold ret at 1. rewrite Hflag, Hb. by destruct b.
Qed.

(** C6 (amended): for a structured descriptor and for one decoded from
    text, the missing-flag error is thrown exactly when the flag is not
    loosely equal to [true].  Boolean [true] and the number 1 pass: the
    descriptor is returned.  A missing flag, null, [false], a number that
    is not 1 and a string whose number is not 1 are rejected. *)
Theorem validateKernelObj_flag (input d flag : value) (s0 s : store) :
  presents JSON_parse input s0 d s -> loosely_null d = false ->
  get_value d "isKernelObj" s = Ret flag s ->
  (forall b, loosely_true StringToNumber flag s = Ret b s ->
             validate input s0 = if b then Ret d s else Throw missing_flag s)
  /\ (flag = VBool true -> validate input s0 = Ret d s)
  /\ (flag = VNumber 1%float -> validate input s0 = Ret d s)
  /\ (flag = VUndefined \/ flag = VNull \/ flag = VBool false ->
      validate input s0 = Throw missing_flag s)
  /\ (forall f, flag = VNumber f -> PrimFloat.eqb f 1%float = false ->
                validate input s0 = Throw missing_flag s)
  /\ (forall x, flag = VString x -> PrimFloat.eqb (StringToNumber x) 1%float = false ->
                validate input s0 = Throw missing_flag s).
Proof.
  intros Hp Hd Hflag.
  pose proof (fun b => validate_presented input d flag s0 s b Hp Hd Hflag) as H.
  split; [exact H|]. repeat split.
  - intros ->. by apply (H true).
  - intros ->. by apply (H true).
  - intros [->|[->| ->]]; by apply (H false).
  - intros f -> Hf. apply (H false). unfold loosely_true, bind, ToPrimitive, ret.
    simpl. by rewrite Hf.
  - intros x -> Hx. apply (H false). unfold loosely_true, bind, ToPrimitive, ret.
    simpl. by rewrite Hx.
Qed.

(** C8: [validateKernelObj] throws the null error on null, the conversion
    error (after [console.error]) on a string that [JSON.parse] rejects, the
    null-representation error on a string that decodes to null, and returns
    a descriptor whose flag is [true]: the structured argument itself with
    the store untouched, or the object decoded from the text. *)
Theorem validateKernelObj_cases (s : store) :
  validate VNull s
  = Throw (Thrown (VString "KernelObj being validated is NULL")) s
  /\ (forall text,
        JSON_parse text (heap s) = None ->
        validate (VString text) s
        = Throw (Thrown (VString "Failed to convert KernelObj from JSON string"))
                {| heap := heap s; trace := trace s ++ [ConsoleError] |})
  /\ (forall text h,
        JSON_parse text (heap s) = Some (VNull, h) ->
        validate (VString text) s
        = Throw (Thrown (VString "Invalid (NULL) KernelObj JSON string representation"))
                {| heap := h; trace := trace s |})
  /\ (forall d,
        loosely_null d = false -> (forall x, d <> VString x) ->
        get_value d "isKernelObj" s = Ret (VBool true) s ->
        validate d s = Ret d s)
  /\ (forall text d h,
        JSON_parse text (heap s) = Some (d, h) -> loosely_null d = false ->
        get_value d "isKernelObj" {| heap := h; trace := trace s |}
        = Ret (VBool true) {| heap := h; trace := trace s |} ->
        validate (VString text) s = Ret d {| heap := h; trace := trace s |}).
Proof.
  split; [reflexivity|]. split; [|split; [|split]].
  - intros text Hp. unfold validateKernelObj, bind, parse. simpl. by rewrite Hp.
  - intros text h Hp. unfold validateKernelObj, bind, parse. simpl. by rewrite Hp.
  - intros d Hd Hns Hflag.
    by apply (validate_presented d d (VBool true) s s true);
      [apply presents_structured| | |].
  - intros text d h Hp Hd Hflag.
    by apply (validate_presented (VString text) d (VBool true) s _ true);
      [apply presents_decoded| | |].
Qed.

End ValidationProperties.

(** C6 (counterexample): the flag 1 is not strictly equal to [true], yet
    [{isKernelObj: 1}] passes the check [kernelObj.isKernelObj != true] and is
    returned. *)
Lemma validateKernelObj_accepts_one :
  get_value (VObject 0) "isKernelObj" flag_one_store
  = Ret (VNumber 1%float) flag_one_store
  /\ strict_equal (VNumber 1%float) (VBool true) = false
  /\ validateKernelObj sample_JSON_parse sample_StringToNumber (VObject 0) flag_one_store
     = Ret (VObject 0) flag_one_store.
Proof. repeat split. Qed.

Lemma validateKernelObj_flag_witness :
  validateKernelObj sample_JSON_parse sample_StringToNumber (VObject 0) flag_one_store
  = Ret (VObject 0) flag_one_store.
Proof.
  apply (validateKernelObj_flag sample_JSON_parse sample_StringToNumber
           (VObject 0) (VObject 0) (VNumber 1%float) flag_one_store flag_one_store).
  - apply presents_structured. discriminate.
  - reflexivity.
  - reflexivity.
  - reflexivity.
Defined.

Lemma validateKernelObj_cases_witness :
  validateKernelObj sample_JSON_parse sample_StringToNumber (VString "{not json")
    empty_store
  = Throw (Thrown (VString "Failed to convert KernelObj from JSON string"))
          {| heap := []; trace := [ConsoleError] |}
  /\ validateKernelObj sample_JSON_parse sample_StringToNumber (VString "null")
       empty_store
     = Throw (Thrown (VString "Invalid (NULL) KernelObj JSON string representation"))
             empty_store
  /\ validateKernelObj sample_JSON_parse sample_StringToNumber (VObject 0) kernel_store
     = Ret (VObject 0) kernel_store
  /\ validateKernelObj sample_JSON_parse sample_StringToNumber (VString kernel_text)
       empty_store
     = Ret (VObject 0)
           {| heap := [record [("isKernelObj", VBool true)]]; trace := [] |}.
Proof.
  pose proof (validateKernelObj_cases sample_JSON_parse sample_StringToNumber
                empty_store) as (_ & Hbad & Hnull & _ & Htext).
  pose proof (validateKernelObj_cases sample_JSON_parse sample_StringToNumber
                kernel_store) as (_ & _ & _ & Hobj & _).
  split; [|split; [|split]].
  - apply (Hbad "{not json"). reflexivity.
  - apply (Hnull "null" []). reflexivity.
  - apply (Hobj (VObject 0)); [reflexivity|discriminate|reflexivity].
  - apply (Htext kernel_text (VObject 0) [record [("isKernelObj", VBool true)]]);
      reflexivity.
Defined.

(** * Further properties *)

(** ** The validators isCanvas and isWebGl *)

Lemma bind_final_same {A B} (m : M A) (k : A -> M B) (s : store) :
  final (m s) = s ->
  (forall a, m s = Ret a s -> final (k a s) = s) ->
  final (bind m k s) = s.
Proof.
  unfold bind. destruct (m s) as [a s1|e s1]; simpl; try done.
  intros -> Hk. by apply Hk.
Qed.

Lemma get_prop_final (v : value) (k : string) (s : store) :
  final (get_prop v k s) = s.
Proof.
  unfold get_prop. destruct (member _ _ _) as [[ | |[]| ]|]; try reflexivity.
  - by destruct (proto_of _ _) as [[]|].
  - destruct v; try reflexivity. by destruct (slot <$> _) as [[]|].
Qed.

Lemma invoke_toUpperCase_Ret (this : rvalue) (s s' : store) (u : value) :
  invoke_on this CallToUpperCase s = Ret u s' ->
  exists x, this = Val (VString x) /\ u = VString (toUpperCase x) /\ s' = s.
Proof.
  unfold invoke_on. destruct (rmember _ _ _) as [[ |f| | ]|]; try discriminate.
  destruct f; try discriminate. simpl.
  destruct this as [[]| |]; try discriminate. intros [= <- <-]. by eexists.
Qed.

Lemma invoke_reading_final (this : rvalue) (c : call) (s : store) :
  c = CallToUpperCase \/ (exists k, c = CallHasOwnProperty k) ->
  final (invoke_on this c s) = s.
Proof.
  intros Hc. unfold invoke_on.
  destruct (rmember _ _ _) as [[ |f| | ]|]; try reflexivity.
  destruct Hc as [->|[k ->]]; destruct f; try reflexivity; simpl.
  - by destruct this as [[]| |].
  - by destruct this as [[]| |].
Qed.

Lemma strict_equal_string (u : value) (x : string) :
  strict_equal u (VString x) = true -> u = VString x.
Proof. destruct u; try discriminate. simpl. by intros ->%String.eqb_eq. Qed.

Lemma falsy_value_falsy (r : rvalue) : rtruthy r = false -> truthy (falsy_value r) = false.
Proof. by destruct r. Qed.

(** X1: [isCanvas] answers [true] exactly for a value whose [nodeName] is a
    string that upper-cases to CANVAS and whose [getContext] is truthy;
    nothing else about the value is looked at. *)
Theorem isCanvas_true_iff (v : value) (s : store) :
  isCanvas v s = Ret (VBool true) s
  <-> exists n g,
        get_prop v "nodeName" s = Ret (Val (VString n)) s
        /\ get_prop v "getContext" s = Ret g s
        /\ rtruthy g = true
        /\ toUpperCase n = "CANVAS".
Proof.
  split.
  - unfold isCanvas. destruct (is_null v); [discriminate|]. intros H.
    bind_inv H as n s1 Hn. pose proof (get_prop_store _ _ _ _ _ Hn) as ->.
    destruct (rtruthy n) eqn:Htn; simpl in H.
    2:{ injection H as H. apply falsy_value_falsy in Htn. by rewrite H in Htn. }
    bind_inv H as g s1 Hg. pose proof (get_prop_store _ _ _ _ _ Hg) as ->.
    destruct (rtruthy g) eqn:Htg; simpl in H.
    2:{ injection H as H. apply falsy_value_falsy in Htg. by rewrite H in Htg. }
    bind_inv H as n' s1 Hn'. rewrite Hn in Hn'. injection Hn' as <- <-.
    bind_inv H as u s1 Hu.
    apply invoke_toUpperCase_Ret in Hu as (x & -> & -> & ->).
    injection H as H%String.eqb_eq. by exists x, g.
  - intros (n & g & Hn & Hg & Htg & Hup).
    assert (Hne : String.eqb n "" = false) by by destruct n.
    unfold isCanvas.
    assert (Hv : is_null v = false) by by destruct v.
    rewrite Hv, (bind_eq _ _ _ _ _ Hn). cbn [rtruthy truthy]. rewrite Hne.
    cbn [negb]. rewrite (bind_eq _ _ _ _ _ Hg), Htg. cbn [negb].
    rewrite (bind_eq _ _ _ _ _ Hn).
    unfold bind, invoke_on, rmember, member. simpl. unfold ret. by rewrite Hup.
Qed.

(** X2: [isCanvas] and [isWebGl] only read: whether they return or throw,
    the store (heap and trace of host calls) is the one they were given. *)
Theorem validators_read_only (v : value) (s : store) :
  final (isCanvas v s) = s /\ final (isWebGl v s) = s.
Proof.
  split.
  - unfold isCanvas. destruct (is_null v); [reflexivity|].
    apply bind_final_same; [apply get_prop_final|]. intros n _.
    destruct (negb (rtruthy n)); [reflexivity|].
    apply bind_final_same; [apply get_prop_final|]. intros g _.
    destruct (negb (rtruthy g)); [reflexivity|].
    apply bind_final_same; [apply get_prop_final|]. intros n' _.
    apply bind_final_same; [apply invoke_reading_final; by left|]. by intros u _.
  - unfold isWebGl. destruct (is_null v); [reflexivity|].
    apply bind_final_same; [apply get_prop_final|]. intros p _.
    apply bind_final_same.
    { destruct (rtruthy p); [|reflexivity].
      apply invoke_reading_final. right. by eexists. }
    intros x _. destruct (truthy x); [reflexivity|].
    apply bind_final_same; [apply get_prop_final|]. intros q _.
    destruct (rtruthy q); [|reflexivity].
    apply invoke_reading_final. right. by eexists.
Qed.

Lemma get_prop_proto_builtin (s : store) (l : loc) (o : object) :
  heap s !! l = Some o -> own o "__proto__" = None ->
  proto o <> NullPrototype -> (forall l', proto o <> UserPrototype l') ->
  get_prop (VObject l) "__proto__" s = Ret (Prot (proto o)) s.
Proof.
  intros Hl Ho Hn Hu. unfold get_prop, member.
  rewrite (find_member_builtin _ _ _ _ _ Hl Ho Hu). simpl. rewrite Hl. simpl.
  destruct (proto o) eqn:Hp; try reflexivity; try done. by destruct (Hu l0).
Qed.



(** ** initCanvas *)

Lemma get_prop_host_nodeName (s : store) (l : loc) (o : object) (n : string)
    (contexts : list (string * value)) :
  heap s !! l = Some o -> host_canvas o n contexts ->
  get_prop (VObject l) "nodeName" s = Ret (Val (VString n)) s.
Proof.
  intros Hl (Hp & Hs & Hn & _). unfold get_prop, member.
  rewrite (find_member_builtin _ _ _ _ _ Hl Hn) by by rewrite Hp.
  rewrite Hp. simpl. rewrite Hl. simpl. by rewrite Hs.
Qed.

Lemma get_prop_host_getContext (s : store) (l : loc) (o : object) (n : string)
    (contexts : list (string * value)) :
  heap s !! l = Some o -> host_canvas o n contexts ->
  get_prop (VObject l) "getContext" s = Ret (Fun GetContext) s.
Proof.
  intros Hl (Hp & Hs & _ & Hg). unfold get_prop, member.
  rewrite (find_member_builtin _ _ _ _ _ Hl Hg) by by rewrite Hp.
  by rewrite Hp.
Qed.

Lemma isCanvas_host_canvas (s : store) (l : loc) (o : object) (n : string)
    (contexts : list (string * value)) :
  heap s !! l = Some o -> host_canvas o n contexts -> toUpperCase n = "CANVAS" ->
  isCanvas (VObject l) s = Ret (VBool true) s.
Proof.
  intros Hl Ho Hn.
  assert (Hne : String.eqb n "" = false) by by destruct n.
  unfold isCanvas. cbn [is_null].
  rewrite (bind_eq _ _ _ _ _ (get_prop_host_nodeName s l o n contexts Hl Ho)).
  cbn [rtruthy truthy]. rewrite Hne. cbn [negb].
  rewrite (bind_eq _ _ _ _ _ (get_prop_host_getContext s l o n contexts Hl Ho)).
  cbn [rtruthy negb].
  rewrite (bind_eq _ _ _ _ _ (get_prop_host_nodeName s l o n contexts Hl Ho)).
  unfold bind, invoke_on, rmember, member. simpl. unfold ret. by rewrite Hn.
Qed.

Lemma invoke_createElement (s : store) (d : loc) (o : object) (n : string)
    (contexts : list (string * value)) :
  heap s !! d = Some o -> host_document o n contexts ->
  invoke (VObject d) CallCreateCanvas s
  = Ret (VObject (length (heap s)))
        {| heap := heap s ++ [canvas_element n contexts []];
           trace := trace s ++ [CreateElementCall "canvas"] |}.
Proof.
  intros Hl (Hp & Hs & Hc). unfold invoke, invoke_on, rmember, member. simpl.
  rewrite (find_member_builtin _ _ _ _ _ Hl Hc) by by rewrite Hp.
  rewrite Hp. simpl. rewrite Hl. simpl. by rewrite Hs.
Qed.

Lemma update_new (h : list object) (tr : list event) (o : object)
    (f : object -> object) :
  update (length h) f {| heap := h ++ [o]; trace := tr |}
  = {| heap := h ++ [f o]; trace := tr |}.
Proof.
  unfold update. simpl. rewrite list_lookup_middle by done. f_equal.
  rewrite insert_app_r_alt by lia. by rewrite Nat.sub_diag.
Qed.

Lemma initCanvas_host (s : store) (d : loc) (o : object) (n : string)
    (contexts : list (string * value)) (c : value) :
  truthy c = true -> heap s !! d = Some o -> host_document o n contexts ->
  initCanvas {| document := Some (VObject d) |} c s
  = Ret (VObject (length (heap s)))
        {| heap := heap s ++ [canvas_element n contexts
                                [("width", VNumber 2%float); ("height", VNumber 2%float)]];
           trace := trace s ++ [CreateElementCall "canvas"] |}.
Proof.
  intros Hc Hl Ho. unfold initCanvas. rewrite Hc. cbn [negb document].
  rewrite (bind_eq _ _ _ _ _ (invoke_createElement s d o n contexts Hl Ho)).
  assert (Hput : forall ps k x,
            assoc k ps = None -> k <> "__proto__" -> k <> "nodeName" ->
            put (VObject (length (heap s))) k x
              {| heap := heap s ++ [canvas_element n contexts ps];
                 trace := trace s ++ [CreateElementCall "canvas"] |}
            = Ret tt {| heap := heap s ++ [canvas_element n contexts (ps ++ [(k, x)])];
                        trace := trace s ++ [CreateElementCall "canvas"] |}).
  { intros ps k x Hk Hk1 Hk2.
    etransitivity; [|by rewrite <- (update_new _ _ (canvas_element n contexts ps)
                        (fun o => with_props o (props o ++ [(k, x)])))].
    apply put_append with (o := canvas_element n contexts ps).
    - simpl. by apply list_lookup_middle.
    - exact Hk.
    - intros a Ha. apply find_member_accessor in Ha as [[_ ?]|[_ ?]]; done.
    - reflexivity.
    - apply (writable_member_builtin _ _ _ (canvas_element n contexts ps));
        [simpl; by apply list_lookup_middle|exact Hk|discriminate]. }
  rewrite (bind_eq _ _ _ _ _ (Hput [] "width" (VNumber 2%float) eq_refl
                                ltac:(discriminate) ltac:(discriminate))).
  by rewrite (bind_eq _ _ _ _ _ (Hput [("width", VNumber 2%float)] "height"
                                   (VNumber 2%float) eq_refl
                                   ltac:(discriminate) ltac:(discriminate))).
Qed.

(** X4: where canvas support was detected and [document] is a host document
    whose canvas elements are named CANVAS in some letter case, [initCanvas]
    creates one new element through a single [createElement('canvas')], sets
    its width and height to 2, and returns it; [isCanvas] accepts the result.
    Without detected support it returns null and creates nothing, whatever
    [document] is. *)
Theorem initCanvas_creates_canvas (s : store) (d : loc) (o : object) (n : string)
    (contexts : list (string * value)) (c : value) :
  heap s !! d = Some o -> host_document o n contexts ->
  toUpperCase n = "CANVAS" ->
  (truthy c = true ->
   let s' := {| heap := heap s ++ [canvas_element n contexts
                                     [("width", VNumber 2%float);
                                      ("height", VNumber 2%float)]];
                trace := trace s ++ [CreateElementCall "canvas"] |} in
   initCanvas {| document := Some (VObject d) |} c s
   = Ret (VObject (length (heap s))) s'
   /\ isCanvas (VObject (length (heap s))) s' = Ret (VBool true) s')
  /\ (truthy c = false ->
      forall env, initCanvas env c s = Ret VNull s).
Proof.
  intros Hl Ho Hn. split.
  - intros Hc. split; [by apply initCanvas_host with (o := o)|].
    eapply isCanvas_host_canvas; [by apply list_lookup_middle| |exact Hn].
    by repeat split.
  - intros Hc env. unfold initCanvas. by rewrite Hc.
Qed.

Lemma initCanvas_creates_canvas_witness :
  initCanvas {| document := Some (VObject 0) |} (VBool true) browser_store
  = Ret (VObject 3)
        {| heap := heap browser_store
                   ++ [canvas_element "CANVAS" [("experimental-webgl", VObject 1);
                                                ("webgl", VObject 1)]
                         [("width", VNumber 2%float); ("height", VNumber 2%float)]];
           trace := [CreateElementCall "canvas"] |}.
Proof.
  apply (proj1 (initCanvas_creates_canvas browser_store 0 _ "CANVAS" _ (VBool true)
                  eq_refl ltac:(by repeat split) eq_refl) eq_refl).
Defined.

(** ** initWebGl *)

Lemma assoc_set_same (k : string) (x : value) (ps : list (string * value)) :
  assoc k (assoc_set k x ps) = Some x.
Proof.
  induction ps as [|[k0 v0] ps IH]; simpl.
  - by rewrite String.eqb_refl.
  - destruct (String.eqb_spec k k0) as [->|Hk]; simpl.
    + by rewrite String.eqb_refl.
    + destruct (String.eqb_spec k k0); [done|exact IH].
Qed.

Lemma assoc_set_absent (k : string) (x : value) (ps : list (string * value)) :
  assoc k ps = None -> assoc_set k x ps = ps ++ [(k, x)].
Proof.
  induction ps as [|[k0 v0] ps IH]; simpl; [done|].
  destruct (String.eqb k k0); [discriminate|]. intros H. by rewrite IH.
Qed.

(** On an extensible object with a built-in prototype, an assignment that
    meets no accessor sets the own property, in place or at the end. *)
Lemma put_set (l : loc) (k : string) (x : value) (s : store) (o : object) :
  heap s !! l = Some o -> k <> "__proto__" -> k <> "nodeName" ->
  extensible o = true -> (forall l', proto o <> UserPrototype l') ->
  put (VObject l) k x s
  = Ret tt {| heap := <[l := with_props o (assoc_set k x (props o))]> (heap s);
              trace := trace s |}.
Proof.
  intros Hl Hk1 Hk2 He Hp. unfold put, update. rewrite Hl, He.
  assert (Hfr : frozen o = false).
  { unfold extensible in He. unfold frozen. by destruct (slot o). }
  rewrite Hfr.
  destruct (own o k) eqn:Ho; [reflexivity|].
  rewrite (writable_member_builtin _ _ _ _ _ Hl Ho Hp).
  destruct (find_member _ _ _ _) as [ | |a| ] eqn:Hf;
    try by (unfold own in Ho; rewrite (assoc_set_absent _ _ _ Ho)).
  apply find_member_accessor in Hf as [[_ ?]|[_ ?]]; done.
Qed.

Lemma getContext_with_defaults_host (s : store) (l : loc) (o : object)
    (n id : string) (contexts : list (string * value)) :
  heap s !! l = Some o -> host_canvas o n contexts ->
  getContext_with_defaults (VObject l) id s
  = Ret (default VNull (assoc id contexts))
        {| heap := heap s ++ [default_options];
           trace := trace s ++ [GetContextCall l id (VObject (length (heap s)))] |}.
Proof.
  intros Hl Ho. unfold getContext_with_defaults.
  rewrite (bind_eq _ _ _ _ _ (get_prop_host_getContext s l o n contexts Hl Ho)).
  unfold bind, initWebGlDefaultOptions, alloc, apply, log, ret. simpl.
  rewrite (lookup_app_l_Some _ _ _ _ Hl). simpl.
  by destruct Ho as (_ & -> & _).
Qed.

Lemma invoke_getExtension_host (s : store) (g : loc) (o : object) (name : string)
    (extensions : list (string * value)) :
  heap s !! g = Some o -> host_context o extensions ->
  invoke (VObject g) (CallGetExtension name) s
  = Ret (extension extensions name)
        {| heap := heap s; trace := trace s ++ [GetExtensionCall g name] |}.
Proof.
  intros Hl (Hp & Hs & He & _). unfold invoke, invoke_on, rmember, member.
  cbn [member_name].
  rewrite (find_member_builtin _ _ _ _ _ Hl He) by by rewrite Hp.
  rewrite Hp. simpl. rewrite Hl. simpl. by rewrite Hs.
Qed.

Lemma host_context_set (o : object) (extensions : list (string * value))
    (k : string) (x : value) :
  host_context o extensions -> k <> "getExtension" -> k <> "__proto__" ->
  host_context (with_props o (assoc_set k x (props o))) extensions.
Proof.
  intros (Hp & Hs & He & Hq) Hk1 Hk2. repeat split; try done.
  - unfold own. simpl. by rewrite assoc_set_other.
  - unfold own. simpl. by rewrite assoc_set_other.
Qed.

Lemma store_extension_host (s : store) (g : loc) (o : object) (name : string)
    (extensions : list (string * value)) :
  heap s !! g = Some o -> host_context o extensions ->
  name <> "__proto__" -> name <> "nodeName" ->
  store_extension (VObject g) name s
  = Ret tt {| heap := <[g := with_props o
                              (assoc_set name (extension extensions name) (props o))]>
                        (heap s);
              trace := trace s ++ [GetExtensionCall g name] |}.
Proof.
  intros Hl Ho Hk1 Hk2. unfold store_extension.
  rewrite (bind_eq _ _ _ _ _ (invoke_getExtension_host s g o name extensions Hl Ho)).
  destruct Ho as (Hp & Hs & _).
  apply (put_set g name _ {| heap := heap s; trace := _ |} o Hl Hk1 Hk2).
  - unfold extensible. by rewrite Hs.
  - intros l'. by rewrite Hp.
Qed.

(** The last four statements of [initWebGl] on a host rendering context. *)
Lemma extensions_stored (s : store) (g : loc) (o : object)
    (extensions : list (string * value)) :
  heap s !! g = Some o -> host_context o extensions ->
  (store_extension (VObject g) "OES_texture_float" ;;;
   store_extension (VObject g) "OES_texture_float_linear" ;;;
   store_extension (VObject g) "OES_element_index_uint" ;;;
   ret (VObject g)) s
  = Ret (VObject g)
        {| heap := <[g := with_extensions extensions o]> (heap s);
           trace := trace s ++ [ GetExtensionCall g "OES_texture_float";
                                 GetExtensionCall g "OES_texture_float_linear";
                                 GetExtensionCall g "OES_element_index_uint" ] |}.
Proof.
  intros Hl Ho. assert (Hlt : g < length (heap s)) by by eapply lookup_lt_Some.
  assert (Hstep : forall name s1 o1,
            name <> "__proto__" -> name <> "nodeName" ->
            heap s1 !! g = Some o1 -> host_context o1 extensions ->
            store_extension (VObject g) name s1
            = Ret tt {| heap := <[g := with_props o1
                                   (assoc_set name (extension extensions name)
                                      (props o1))]> (heap s1);
                        trace := trace s1 ++ [GetExtensionCall g name] |}).
  { intros name s1 o1 H1 H2 Hl1 Ho1. by apply store_extension_host. }
  rewrite (bind_eq _ _ _ _ _ (Hstep "OES_texture_float" s o
             ltac:(discriminate) ltac:(discriminate) Hl Ho)).
  set (o1 := with_props o (assoc_set "OES_texture_float" _ (props o))).
  assert (Ho1 : host_context o1 extensions)
    by (apply host_context_set; [done|discriminate|discriminate]).
  pose (s1 := {| heap := <[g := o1]> (heap s);
                 trace := trace s ++ [GetExtensionCall g "OES_texture_float"] |}).
  assert (Hl1 : heap s1 !! g = Some o1) by (simpl; by apply list_lookup_insert_eq).
  rewrite (bind_eq _ _ _ _ _ (Hstep "OES_texture_float_linear" s1 o1
             ltac:(discriminate) ltac:(discriminate) Hl1 Ho1)).
  set (o2 := with_props o1 (assoc_set "OES_texture_float_linear" _ (props o1))).
  assert (Ho2 : host_context o2 extensions)
    by (apply host_context_set; [done|discriminate|discriminate]).
  pose (s2 := {| heap := <[g := o2]> (heap s1);
                 trace := trace s1 ++ [GetExtensionCall g "OES_texture_float_linear"] |}).
  assert (Hl2 : heap s2 !! g = Some o2).
  { simpl. apply list_lookup_insert_eq. by rewrite length_insert. }
  rewrite (bind_eq _ _ _ _ _ (Hstep "OES_element_index_uint" s2 o2
             ltac:(discriminate) ltac:(discriminate) Hl2 Ho2)).
  unfold ret. simpl. rewrite !list_insert_insert_eq, <- !app_assoc. reflexivity.
Qed.

Lemma with_extensions_own (o : object) (extensions : list (string * value)) :
  own (with_extensions extensions o) "OES_texture_float"
  = Some (extension extensions "OES_texture_float")
  /\ own (with_extensions extensions o) "OES_texture_float_linear"
     = Some (extension extensions "OES_texture_float_linear")
  /\ own (with_extensions extensions o) "OES_element_index_uint"
     = Some (extension extensions "OES_element_index_uint").
Proof.
  unfold own, with_extensions. simpl. repeat split.
  - rewrite !assoc_set_other by discriminate. apply assoc_set_same.
  - rewrite assoc_set_other by discriminate. apply assoc_set_same.
  - apply assoc_set_same.
Qed.

Lemma host_context_with_extensions (o : object) (extensions : list (string * value)) :
  host_context o extensions -> host_context (with_extensions extensions o) extensions.
Proof.
  intros (Hp & Hs & He & Hq). unfold with_extensions.
  repeat split; try done; unfold own; simpl;
    by rewrite !assoc_set_other by discriminate.
Qed.

Lemma initWebGl_first_identifier (c : value) (s : store) (l g : loc) (o og : object)
    (n : string) (contexts extensions : list (string * value)) :
  truthy c = true ->
  heap s !! l = Some o -> host_canvas o n contexts -> toUpperCase n = "CANVAS" ->
  assoc "experimental-webgl" contexts = Some (VObject g) ->
  heap s !! g = Some og -> host_context og extensions ->
  initWebGl c (VObject l) s
  = Ret (VObject g)
        {| heap := <[g := with_extensions extensions og]> (heap s ++ [default_options]);
           trace := trace s
                    ++ [ GetContextCall l "experimental-webgl" (VObject (length (heap s)));
                         GetExtensionCall g "OES_texture_float";
                         GetExtensionCall g "OES_texture_float_linear";
                         GetExtensionCall g "OES_element_index_uint" ] |}.
Proof.
  intros Hc Hl Ho Hn He Hg Hog.
  unfold initWebGl. rewrite Hc, andb_false_r.
  rewrite (bind_eq _ _ _ _ _ (isCanvas_host_canvas s l o n contexts Hl Ho Hn)).
  cbn [truthy negb].
  rewrite (bind_eq _ _ _ _ _ (getContext_with_defaults_host s l o n _ contexts Hl Ho)).
  rewrite He. change (default VNull (Some (VObject g))) with (VObject g).
  cbn [truthy].
  pose (s1 := {| heap := heap s ++ [default_options];
                 trace := trace s ++ [GetContextCall l "experimental-webgl"
                                        (VObject (length (heap s)))] |}).
  assert (Hg1 : heap s1 !! g = Some og) by by apply lookup_app_l_Some.
  fold s1. rewrite (bind_eq _ _ s1 s1 (VObject g)) by reflexivity.
  rewrite (extensions_stored s1 g og extensions Hg1 Hog).
  simpl. by rewrite <- app_assoc.
Qed.

(** X5: on a host canvas element, with canvas support detected, whose
    [getContext] resolves 'experimental-webgl' to a rendering context,
    [initWebGl] returns that context after exactly one [getContext] call
    ('webgl' is never asked for), made with a fresh default options object;
    it asks the context for the three extensions in the order float, float
    linear, element index, and stores each answer (null when the extension is
    missing) on the context under the extension's name. *)
Theorem initWebGl_returns_context (c : value) (s : store) (l g : loc) (o og : object)
    (n : string) (contexts extensions : list (string * value)) :
  truthy c = true ->
  heap s !! l = Some o -> host_canvas o n contexts -> toUpperCase n = "CANVAS" ->
  assoc "experimental-webgl" contexts = Some (VObject g) ->
  heap s !! g = Some og -> host_context og extensions ->
  exists s',
    initWebGl c (VObject l) s = Ret (VObject g) s'
    /\ trace s' = trace s
                  ++ [ GetContextCall l "experimental-webgl" (VObject (length (heap s)));
                       GetExtensionCall g "OES_texture_float";
                       GetExtensionCall g "OES_texture_float_linear";
                       GetExtensionCall g "OES_element_index_uint" ]
    /\ heap s' !! length (heap s) = Some default_options
    /\ (forall name,
          name = "OES_texture_float" \/ name = "OES_texture_float_linear"
          \/ name = "OES_element_index_uint" ->
          get_value (VObject g) name s' = Ret (extension extensions name) s')
    /\ (forall l' o', l' <> g -> heap s !! l' = Some o' -> heap s' !! l' = Some o').
Proof.
  intros Hc Hl Ho Hn He Hg Hog. eexists. split.
  { by apply initWebGl_first_identifier with (o := o) (og := og) (n := n)
                                             (contexts := contexts). }
  assert (Hlt : g < length (heap s)) by by eapply lookup_lt_Some.
  cbn [heap trace]. split; [reflexivity|]. split; [|split].
  - rewrite list_lookup_insert_ne by lia. by apply list_lookup_middle.
  - intros name Hname. eapply get_value_own.
    + cbn [heap]. apply list_lookup_insert_eq. rewrite length_app. lia.
    + pose proof (with_extensions_own og extensions) as (H1 & H2 & H3).
      by destruct Hname as [->|[->| ->]].
  - intros l' o' Hne Hl'. rewrite list_lookup_insert_ne by done.
    by apply lookup_app_l_Some.
Qed.

Lemma initWebGl_returns_context_witness :
  exists s',
    initWebGl (VBool true) (VObject 3)
      {| heap := heap browser_store
                 ++ [canvas_element "CANVAS" [("experimental-webgl", VObject 1);
                                              ("webgl", VObject 1)] []];
         trace := [] |}
    = Ret (VObject 1) s'
    /\ get_value (VObject 1) "OES_texture_float" s' = Ret (VObject 2) s'
    /\ get_value (VObject 1) "OES_element_index_uint" s' = Ret VNull s'.
Proof.
  destruct (initWebGl_returns_context (VBool true)
              {| heap := heap browser_store
                         ++ [canvas_element "CANVAS" [("experimental-webgl", VObject 1);
                                                      ("webgl", VObject 1)] []];
                 trace := [] |}
              3 1 _ _ "CANVAS" _ _ eq_refl eq_refl
              ltac:(by repeat split) eq_refl eq_refl eq_refl
              ltac:(by repeat split))
    as (s' & Hr & _ & _ & Hget & _).
  exists s'. split; [exact Hr|]. split; apply Hget; auto.
Defined.

(** X6: when 'experimental-webgl' resolves to nothing (null or another falsy
    value) and 'webgl' to a rendering context, [initWebGl] returns the
    'webgl' context: it has asked for 'experimental-webgl' first and 'webgl'
    second, each with an options object of its own, and then stored the
    three extensions on the context. *)
Theorem initWebGl_falls_back (c : value) (s : store) (l g : loc) (o og : object)
    (n : string) (contexts extensions : list (string * value)) :
  truthy c = true ->
  heap s !! l = Some o -> host_canvas o n contexts -> toUpperCase n = "CANVAS" ->
  truthy (default VNull (assoc "experimental-webgl" contexts)) = false ->
  assoc "webgl" contexts = Some (VObject g) ->
  heap s !! g = Some og -> host_context og extensions ->
  initWebGl c (VObject l) s
  = Ret (VObject g)
        {| heap := <[g := with_extensions extensions og]>
                     (heap s ++ [default_options; default_options]);
           trace := trace s
                    ++ [ GetContextCall l "experimental-webgl" (VObject (length (heap s)));
                         GetContextCall l "webgl" (VObject (S (length (heap s))));
                         GetExtensionCall g "OES_texture_float";
                         GetExtensionCall g "OES_texture_float_linear";
                         GetExtensionCall g "OES_element_index_uint" ] |}.
Proof.
  intros Hc Hl Ho Hn He Hw Hg Hog.
  unfold initWebGl. rewrite Hc, andb_false_r.
  rewrite (bind_eq _ _ _ _ _ (isCanvas_host_canvas s l o n contexts Hl Ho Hn)).
  cbn [truthy negb].
  rewrite (bind_eq _ _ _ _ _ (getContext_with_defaults_host s l o n _ contexts Hl Ho)).
  rewrite He.
  pose (s1 := {| heap := heap s ++ [default_options];
                 trace := trace s ++ [GetContextCall l "experimental-webgl"
                                        (VObject (length (heap s)))] |}).
  assert (Hl1 : heap s1 !! l = Some o) by by apply lookup_app_l_Some.
  fold s1.
  rewrite (bind_eq _ _ _ _ _ (getContext_with_defaults_host s1 l o n _ contexts Hl1 Ho)).
  rewrite Hw. change (default VNull (Some (VObject g))) with (VObject g).
  pose (s2 := {| heap := heap s1 ++ [default_options];
                 trace := trace s1 ++ [GetContextCall l "webgl"
                                         (VObject (length (heap s1)))] |}).
  assert (Hg2 : heap s2 !! g = Some og).
  { apply lookup_app_l_Some. by apply lookup_app_l_Some. }
  fold s2. rewrite (extensions_stored s2 g og extensions Hg2 Hog).
  simpl. rewrite length_app, <- !app_assoc. simpl. by rewrite Nat.add_1_r.
Qed.

Lemma initWebGl_falls_back_witness :
  initWebGl (VBool true) (VObject 0) standard_only_store
  = Ret (VObject 1)
        {| heap := [ canvas_element "canvas" [("webgl", VObject 1)] [];
                     {| proto := WebGLPrototype;
                        slot := RenderingContext [("OES_element_index_uint", VObject 2)];
                        props := [("OES_texture_float", VNull);
                                  ("OES_texture_float_linear", VNull);
                                  ("OES_element_index_uint", VObject 2)] |};
                     record []; default_options; default_options ];
           trace := [ GetContextCall 0 "experimental-webgl" (VObject 3);
                      GetContextCall 0 "webgl" (VObject 4);
                      GetExtensionCall 1 "OES_texture_float";
                      GetExtensionCall 1 "OES_texture_float_linear";
                      GetExtensionCall 1 "OES_element_index_uint" ] |}.
Proof.
  etransitivity;
    [ apply (initWebGl_falls_back (VBool true) standard_only_store 0 1
               (canvas_element "canvas" [("webgl", VObject 1)] [])
               {| proto := WebGLPrototype;
                  slot := RenderingContext [("OES_element_index_uint", VObject 2)];
                  props := [] |}
               "canvas"
               [("webgl", VObject 1)] [("OES_element_index_uint", VObject 2)]);
        try reflexivity; by repeat split
    | reflexivity ].
Defined.

(** ** Module initialisation in a browser *)

Lemma isWebGl_host_context (s : store) (g : loc) (o : object)
    (extensions : list (string * value)) :
  heap s !! g = Some o -> host_context o extensions ->
  isWebGl (VObject g) s = Ret (VBool true) s.
Proof.
  intros Hl (Hp & _ & _ & Hq). unfold isWebGl. cbn [is_null].
  rewrite (bind_eq _ _ _ _ _ (get_prop_proto_builtin s g o Hl Hq
             ltac:(by rewrite Hp) ltac:(by rewrite Hp))).
  by rewrite Hp.
Qed.

(** X7: in a browser, where [document] is a host document whose canvas
    elements resolve 'experimental-webgl' to a rendering context, the
    module's initialisation completes.  It creates two canvas elements (one
    to detect canvas support, one to acquire the context), asks once for the
    context, and records: canvas and WebGL supported, draw buffers supported
    exactly if the context has the WEBGL_draw_buffers extension, and for each
    of the three extensions what the context handed out (null when absent). *)
Theorem module_init_browser (s : store) (d g : loc) (od og : object) (n : string)
    (contexts extensions : list (string * value)) :
  heap s !! d = Some od -> host_document od n contexts ->
  toUpperCase n = "CANVAS" ->
  assoc "experimental-webgl" contexts = Some (VObject g) ->
  heap s !! g = Some og -> host_context og extensions ->
  module_init {| document := Some (VObject d) |} s
  = Ret {| consts :=
             {| _isCanvasSupported := VBool true;
                _testingWebGl := VObject g;
                _isWebGlSupported := VBool true;
                _isWebGlDrawBuffersSupported :=
                  VBool (truthy (extension extensions "WEBGL_draw_buffers")) |};
           OES_texture_float := extension extensions "OES_texture_float";
           OES_texture_float_linear := extension extensions "OES_texture_float_linear";
           OES_element_index_uint := extension extensions "OES_element_index_uint" |}
        {| heap := <[g := with_extensions extensions og]>
                     (heap s
                      ++ [ canvas_element n contexts [];
                           canvas_element n contexts
                             [("width", VNumber 2%float); ("height", VNumber 2%float)];
                           default_options ]);
           trace := trace s
                    ++ [ CreateElementCall "canvas";
                         CreateElementCall "canvas";
                         GetContextCall (S (length (heap s))) "experimental-webgl"
                           (VObject (S (S (length (heap s)))));
                         GetExtensionCall g "OES_texture_float";
                         GetExtensionCall g "OES_texture_float_linear";
                         GetExtensionCall g "OES_element_index_uint";
                         GetExtensionCall g "WEBGL_draw_buffers" ] |}.
Proof.
  intros Hd Hod Hn He Hg Hog.
  assert (Hlt : g < length (heap s)) by by eapply lookup_lt_Some.
  unfold module_init. cbn [document typeof_global typeof].
  change (negb ("object" =? "undefined")%string) with true. cbv iota.
  (* line 303 *)
  rewrite (bind_eq _ _ s
             {| heap := heap s ++ [canvas_element n contexts []];
                trace := trace s ++ [CreateElementCall "canvas"] |} (VBool true)).
  2:{ rewrite (bind_eq _ _ _ _ _ (invoke_createElement s d od n contexts Hd Hod)).
      eapply isCanvas_host_canvas; [by apply list_lookup_middle| |exact Hn].
      by repeat split. }
  pose (sa := {| heap := heap s ++ [canvas_element n contexts []];
                 trace := trace s ++ [CreateElementCall "canvas"] |}).
  fold sa.
  (* line 304 *)
  assert (Hda : heap sa !! d = Some od) by by apply lookup_app_l_Some.
  rewrite (bind_eq _ _ _ _ _
             (initCanvas_host sa d od n contexts (VBool true) eq_refl Hda Hod)).
  pose (sb := {| heap := heap sa ++ [canvas_element n contexts
                                      [("width", VNumber 2%float);
                                       ("height", VNumber 2%float)]];
                 trace := trace sa ++ [CreateElementCall "canvas"] |}).
  fold sb.
  assert (Hgb : heap sb !! g = Some og).
  { apply lookup_app_l_Some. by apply lookup_app_l_Some. }
  assert (Hcb : heap sb !! length (heap sa)
                = Some (canvas_element n contexts
                          [("width", VNumber 2%float); ("height", VNumber 2%float)]))
    by by apply list_lookup_middle.
  rewrite (bind_eq _ _ _ _ _
             (initWebGl_first_identifier (VBool true) sb (length (heap sa)) g _ og n
                contexts extensions eq_refl Hcb ltac:(by repeat split) Hn He Hgb Hog)).
  set (sc := {| heap := <[g := with_extensions extensions og]> _; trace := _ |}).
  assert (Hgc : heap sc !! g = Some (with_extensions extensions og)).
  { simpl. apply list_lookup_insert_eq. rewrite !length_app. simpl. lia. }
  pose proof (host_context_with_extensions og extensions Hog) as Hog'.
  (* lines 305-306 *)
  rewrite (bind_eq _ _ _ _ _ (isWebGl_host_context sc g _ extensions Hgc Hog')).
  rewrite (bind_eq _ _ _ _ _
             (invoke_getExtension_host sc g _ "WEBGL_draw_buffers" extensions Hgc Hog')).
  set (sd := {| heap := heap sc; trace := _ |}).
  assert (Hgd : heap sd !! g = Some (with_extensions extensions og)) by exact Hgc.
  (* lines 308-310 *)
  pose proof (with_extensions_own og extensions) as (H1 & H2 & H3).
  rewrite (bind_eq _ _ _ _ _ (get_value_own g _ sd _ _ Hgd H1)).
  rewrite (bind_eq _ _ _ _ _ (get_value_own g _ sd _ _ Hgd H2)).
  rewrite (bind_eq _ _ _ _ _ (get_value_own g _ sd _ _ Hgd H3)).
  unfold ret. f_equal. unfold sd, sc, sb, sa. simpl.
  rewrite <- !app_assoc. simpl. rewrite !length_app. simpl.
  by rewrite Nat.add_1_r, (Nat.add_comm _ 2).
Qed.

Lemma module_init_browser_witness :
  exists s',
    module_init {| document := Some (VObject 0) |} browser_store
    = Ret {| consts :=
               {| _isCanvasSupported := VBool true;
                  _testingWebGl := VObject 1;
                  _isWebGlSupported := VBool true;
                  _isWebGlDrawBuffersSupported := VBool true |};
             OES_texture_float := VObject 2;
             OES_texture_float_linear := VNull;
             OES_element_index_uint := VNull |} s'.
Proof.
  eexists.
  apply (module_init_browser browser_store 0 1 _ _ "CANVAS" _ _ eq_refl
           ltac:(by repeat split) eq_refl eq_refl eq_refl ltac:(by repeat split)).
Defined.

Lemma isCanvas_truthy (v c : value) (s s' : store) :
  isCanvas v s = Ret c s' -> truthy c = true -> c = VBool true.
Proof.
  unfold isCanvas. destruct (is_null v); [by intros [= <- _]|]. intros H Hc.
  bind_inv H as n s1 Hn.
  destruct (rtruthy n) eqn:Htn; simpl in H.
  2:{ injection H as <- _. apply falsy_value_falsy in Htn. congruence. }
  bind_inv H as g s2 Hg.
  destruct (rtruthy g) eqn:Htg; simpl in H.
  2:{ injection H as <- _. apply falsy_value_falsy in Htg. congruence. }
  bind_inv H as n' s3 Hn'. bind_inv H as u s4 Hu.
  injection H as <- _. simpl in Hc. by rewrite Hc.
Qed.

Lemma invoke_getExtension_Ret (v x : value) (name : string) (s s' : store) :
  invoke v (CallGetExtension name) s = Ret x s' ->
  exists g o extensions,
    v = VObject g /\ heap s !! g = Some o /\ slot o = RenderingContext extensions
    /\ x = extension extensions name
    /\ s' = {| heap := heap s; trace := trace s ++ [GetExtensionCall g name] |}.
Proof.
  unfold invoke, invoke_on.
  destruct (rmember _ _ _) as [[ |f| | ]|]; try discriminate.
  destruct f; try discriminate. simpl.
  destruct v as [ | | | | |g]; try discriminate.
  destruct (heap s !! g) as [o|] eqn:Hg; try discriminate. simpl.
  destruct (slot o) as [ | | |extensions| ] eqn:Hs; try discriminate.
  intros [= <- <-]. by exists g, o, extensions.
Qed.

Lemma invoke_createElement_Ret (v x : value) (s s' : store) :
  invoke v CallCreateCanvas s = Ret x s' -> exists d, v = VObject d.
Proof.
  unfold invoke, invoke_on.
  destruct (rmember _ _ _) as [[ |f| | ]|]; try discriminate.
  destruct f; try discriminate. simpl.
  destruct v as [ | | | | |d]; try discriminate. by exists d.
Qed.

(** X8: the module loads only where canvas and a context are available.
    Whenever the initialisation of lines 303-310 completes, in whatever host,
    [document] is an object, the canvas support flag is the boolean [true],
    the testing context is an object with the internals of a rendering
    context, and the three extension fields hold that context's own record of
    them.  In every other host the initialisation does not complete. *)
Theorem module_init_requires_support (env : environment) (s s' : store)
    (r : snapshot) :
  module_init env s = Ret r s' ->
  (exists d, document env = Some (VObject d))
  /\ _isCanvasSupported (consts r) = VBool true
  /\ (exists g og extensions,
        _testingWebGl (consts r) = VObject g
        /\ heap s' !! g = Some og
        /\ slot og = RenderingContext extensions
        /\ _isWebGlDrawBuffersSupported (consts r)
           = VBool (truthy (extension extensions "WEBGL_draw_buffers"))
        /\ get_value (VObject g) "OES_texture_float" s'
           = Ret (OES_texture_float r) s'
        /\ get_value (VObject g) "OES_texture_float_linear" s'
           = Ret (OES_texture_float_linear r) s'
        /\ get_value (VObject g) "OES_element_index_uint" s'
           = Ret (OES_element_index_uint r) s').
Proof.
  intros H. unfold module_init in H.
  bind_inv H as c s1 Hc. bind_inv H as canvas s2 Hcanvas.
  bind_inv H as gl s3 Hgl. bind_inv H as ws s4 Hws.
  bind_inv H as db s5 Hdb. bind_inv H as tf s6 Htf.
  bind_inv H as tfl s7 Htfl. bind_inv H as ei s8 Hei.
  injection H as <- <-.
  pose proof (get_value_store _ _ _ _ _ Htf) as ->.
  pose proof (get_value_store _ _ _ _ _ Htfl) as ->.
  pose proof (get_value_store _ _ _ _ _ Hei) as ->.
  apply invoke_getExtension_Ret in Hdb as (g & og & extensions & -> & Hg & Hs & -> & ->).
  assert (Htc : truthy c = true).
  { destruct (truthy c) eqn:Htc; [done|]. exfalso.
    unfold initCanvas in Hcanvas. rewrite Htc in Hcanvas.
    injection Hcanvas as <- <-.
    by rewrite (initWebGl_unsupported c VNull s1 Htc (or_intror eq_refl)) in Hgl. }
  cbn [consts _isCanvasSupported _testingWebGl _isWebGlDrawBuffersSupported
       OES_texture_float OES_texture_float_linear OES_element_index_uint].
  destruct (negb (typeof_global (document env) =? "undefined")%string) eqn:Hd.
  2:{ injection Hc as <- _. discriminate. }
  destruct (document env) as [doc|]; [|discriminate].
  bind_inv Hc as cv s0 Hcv.
  apply invoke_createElement_Ret in Hcv as [d ->].
  split; [by exists d|]. split; [by eapply isCanvas_truthy|].
  by exists g, og, extensions.
Qed.

Lemma module_init_requires_support_witness :
  exists r s',
    module_init {| document := Some (VObject 0) |} browser_store = Ret r s'
    /\ _isCanvasSupported (consts r) = VBool true
    /\ exists g, _testingWebGl (consts r) = VObject g.
Proof.
  eexists _, _. split; [reflexivity|].
  destruct (module_init_requires_support {| document := Some (VObject 0) |}
              browser_store _ _ eq_refl)
    as (_ & Hc & g & _ & _ & Hg & _).
  split; [exact Hc|]. exists g. exact Hg.
Defined.

(** ** clone: the heap it leaves, and the depth of the recursion *)

(** Marking an unmarked object appends the marker, when it can be added at
    all. *)
Lemma put_mark_Ret (lo : loc) (s s' : store) (o : object) (u : unit) :
  heap s !! lo = Some o -> own o "isActiveClone" = None ->
  put (VObject lo) "isActiveClone" VNull s = Ret u s' ->
  s' = update lo (fun o => with_props o (props o ++ [("isActiveClone", VNull)])) s.
Proof.
  intros Hl Ho. unfold put. rewrite Hl, Ho.
  destruct (find_member _ _ _ _) as [ | |a| ] eqn:Hf;
    try (destruct (extensible o && writable_member _ _ _ _); [|discriminate];
         by intros [= <-]).
  by destruct (find_member_accessor _ _ _ _ _ Hf) as [[_ ?]|[_ ?]].
Qed.

Lemma put_mark (lo : loc) (s : store) (o : object) :
  heap s !! lo = Some o -> own o "isActiveClone" = None ->
  extensible o = true ->
  writable_member (length (heap s)) (heap s) lo "isActiveClone" = true ->
  put (VObject lo) "isActiveClone" VNull s
  = Ret tt (update lo (fun o => with_props o (props o ++ [("isActiveClone", VNull)])) s).
Proof.
  intros Hl Ho He Hw. apply (put_append lo _ _ s o Hl Ho); [|done|done]. intros a Ha.
  by destruct (find_member_accessor _ _ _ _ _ Ha) as [[_ ?]|[_ ?]].
Qed.

Lemma frame_length (h h' : list object) :
  (forall l o, h !! l = Some o -> h' !! l = Some o) -> length h <= length h'.
Proof.
  intros Hfr. destruct (decide (length h <= length h')) as [|Hlt]; [done|].
  destruct (lookup_lt_is_Some_2 h (length h')) as [o Ho]; [lia|].
  apply Hfr in Ho. apply lookup_lt_Some in Ho. lia.
Qed.

Lemma invoke_object_Ret (l : loc) (c : call) (s s' : store) (r : value) :
  invoke (VObject l) c s = Ret r s' -> l < length (heap s).
Proof.
  unfold invoke, invoke_on, rmember, member. rewrite find_member_eq.
  destruct (heap s !! l) as [o|] eqn:Hl; [|discriminate].
  intros _. by eapply lookup_lt_Some.
Qed.

(** One round of the loop leaves every object but the copy as it was: the
    marker it appends to the source is the one it deletes. *)
Lemma clone_key_frame (rec : value -> M value) (lo t : loc) (key : string)
    (s s' : store) (u : unit) :
  keeps_heap rec -> marked s lo = false -> lo <> t ->
  clone_key rec (VObject lo) (VObject t) key s = Ret u s' ->
  trace s' = trace s /\ length (heap s) <= length (heap s')
  /\ forall l o, l <> t -> heap s !! l = Some o -> heap s' !! l = Some o.
Proof.
  destruct u. intros Hrec Hlo Hne H. unfold clone_key in H.
  bind_inv H as mine s0 Hmine.
  unfold hasOwnProperty_call in Hmine. injection Hmine as <- <-.
  cbn [has_own_member] in H.
  destruct (has_own (heap s) lo key) eqn:Hkey; [|by injection H as <-].
  unfold has_own in Hkey. destruct (heap s !! lo) as [o|] eqn:Hl; [|discriminate].
  assert (Hown : own o "isActiveClone" = None).
  { unfold marked, has_own in Hlo. rewrite Hl in Hlo. by destruct (own o _). }
  bind_inv H as u1 sm Hmark.
  apply (put_mark_Ret lo s sm o u1 Hl Hown) in Hmark.
  assert (Hlm : heap sm !! lo
                = Some (with_props o (props o ++ [("isActiveClone", VNull)]))).
  { rewrite Hmark, update_lookup, Hl. by destruct (decide (lo = lo)). }
  bind_inv H as x s2 Hx. apply get_value_store in Hx as ->.
  bind_inv H as c s3 Hc. bind_inv H as u2 s4 Hput.
  apply delete_prop_Ret in H as ->.
  apply Hrec in Hc as [Htr Hfr]. apply put_frame in Hput as (Htr4 & Hlen4 & Hfr4).
  split; [|split].
  - rewrite update_trace, Htr4, Htr, Hmark. apply update_trace.
  - rewrite update_length, Hlen4. etransitivity; [|by apply frame_length].
    by rewrite Hmark, update_length.
  - intros l o' Hlt Hl'. rewrite update_lookup.
    destruct (decide (lo = l)) as [<-|Hlo'].
    + rewrite Hfr4 by done. rewrite (Hfr _ _ Hlm). simpl.
      rewrite Hl in Hl'. injection Hl' as <-.
      unfold with_props. simpl. rewrite (assoc_remove_snoc _ _ _ Hown).
      by destruct o.
    + rewrite Hfr4 by done. apply Hfr. rewrite Hmark, update_lookup.
      by destruct (decide (lo = l)).
Qed.

Lemma for_each_frame (rec : value -> M value) (lo t : loc) (keys : list string)
    (s s' : store) (u : unit) :
  keeps_heap rec -> keeps_markers rec -> marked s lo = false -> lo <> t ->
  for_each keys (clone_key rec (VObject lo) (VObject t)) s = Ret u s' ->
  trace s' = trace s /\ length (heap s) <= length (heap s')
  /\ forall l o, l <> t -> heap s !! l = Some o -> heap s' !! l = Some o.
Proof.
  intros Hrec Hmk. revert s. induction keys as [|key keys IH]; intros s Hlo Hne H.
  - injection H as _ <-. auto.
  - simpl in H. bind_inv H as u1 s1 Hkey.
    pose proof (clone_key_markers _ _ _ _ _ _ _ Hmk Hlo Hkey) as Hk.
    destruct (clone_key_frame _ _ _ _ _ _ _ Hrec Hlo Hne Hkey) as (Ht1 & Hn1 & Hf1).
    destruct (IH s1) as (Ht2 & Hn2 & Hf2); [by rewrite Hk|done|done|].
    split; [congruence|]. split; [lia|]. intros l o Hl Ho. by apply Hf2, Hf1.
Qed.

Lemma clone_keeps_heap (stack : nat) : keeps_heap (clone stack).
Proof.
  induction stack as [|stack IH]; intros obj s c s' H; [discriminate|].
  simpl in H.
  destruct (is_null obj || negb (String.eqb (typeof obj) "object")) eqn:Hty.
  { by injection H as _ <-. }
  destruct obj as [| | | | |lo]; try discriminate.
  bind_inv H as m s1 Hm. apply invoke_hasOwnProperty_Ret in Hm as [-> ->].
  simpl in H. destruct (has_own (heap s) lo "isActiveClone") eqn:Hm.
  { by injection H as _ <-. }
  bind_inv H as temp s1 Ht. pose proof (invoke_object_Ret _ _ _ _ _ Ht) as Hlt.
  apply invoke_constructor_Ret in Ht as [-> ->].
  bind_inv H as keys s2 Hk. unfold enumerate in Hk. injection Hk as <- <-.
  bind_inv H as u s3 Hloop. injection H as _ <-.
  apply for_each_frame in Hloop as (Ht & _ & Hf);
    [|exact IH|apply clone_keeps_markers|by rewrite alloc_marked|lia].
  split; [exact Ht|]. intros l o Hl. apply Hf.
  - apply lookup_lt_Some in Hl. lia.
  - by apply lookup_app_l_Some.
Qed.

(** X9: [clone] never changes what it is given.  Whatever the heap
    (prototype chains, cycles, host objects), when a call returns every
    object that existed before it is exactly as it was, markers included, and
    no host call has been made; the result is either the input itself, with
    the store untouched, or an object allocated by this call. *)
Theorem clone_leaves_heap (stack : nat) (obj result : value) (s s' : store) :
  clone stack obj s = Ret result s' ->
  trace s' = trace s
  /\ (forall l o, heap s !! l = Some o -> heap s' !! l = Some o)
  /\ (result = obj /\ s' = s
      \/ result = VObject (length (heap s)) /\ length (heap s) < length (heap s')).
Proof.
  intros H. destruct (clone_keeps_heap stack _ _ _ _ H) as [Htr Hfr].
  split; [exact Htr|]. split; [exact Hfr|].
  destruct stack as [|stack]; [discriminate|]. simpl in H.
  destruct (is_null obj || negb (String.eqb (typeof obj) "object")) eqn:Hty.
  { injection H as <- <-. by left. }
  destruct obj as [| | | | |lo]; try discriminate.
  bind_inv H as m s1 Hm. apply invoke_hasOwnProperty_Ret in Hm as [-> ->].
  simpl in H. destruct (has_own (heap s) lo "isActiveClone") eqn:Hm.
  { injection H as <- <-. by left. }
  bind_inv H as temp s1 Ht. pose proof (invoke_object_Ret _ _ _ _ _ Ht) as Hlt.
  apply invoke_constructor_Ret in Ht as [-> ->].
  bind_inv H as keys s2 Hk. unfold enumerate in Hk. injection Hk as <- <-.
  bind_inv H as u s3 Hloop. injection H as <- <-. right. split; [done|].
  apply for_each_frame in Hloop as (_ & Hn & _);
    [|apply clone_keeps_heap|apply clone_keeps_markers|by rewrite alloc_marked|lia].
  simpl in Hn. rewrite length_app in Hn. simpl in Hn. lia.
Qed.

Lemma clone_leaves_heap_witness :
  exists result s',
    clone 3 (VObject 0) nested_store = Ret result s'
    /\ trace s' = []
    /\ heap s' !! 0 = heap nested_store !! 0
    /\ heap s' !! 1 = heap nested_store !! 1
    /\ result = VObject 2.
Proof.
  eexists _, _. split; [reflexivity|].
  destruct (clone_leaves_heap 3 (VObject 0) _ nested_store _ eq_refl)
    as (Htr & Hfr & _).
  split; [exact Htr|]. split; [by apply Hfr|]. split; [by apply Hfr|reflexivity].
Defined.

Lemma bind_fits {A B} (m : M A) (k : A -> M B) (s : store) :
  fits (m s) ->
  (forall a s1, m s = Ret a s1 -> fits (k a s1)) ->
  fits (bind m k s).
Proof.
  unfold fits, bind. destruct (m s) as [a s1|e s1]; intros Hm Hk; [by apply Hk|].
  intros s' [= -> _]. by apply (Hm s1).
Qed.

(** The member calls, the assignments and the deletions overflow no stack:
    what they throw is a TypeError. *)
Lemma invoke_fits (this : rvalue) (c : call) (s : store) :
  fits (invoke_on this c s).
Proof.
  intros s'. unfold invoke_on.
  destruct (rmember _ _ _) as [[ |f| | ]|]; try discriminate.
  destruct f, c; try discriminate; simpl; destruct this as [[]| |];
    try discriminate; by destruct (slot <$> _) as [[]|].
Qed.

Lemma put_fits (v : value) (k : string) (x : value) (s : store) :
  fits (put v k x s).
Proof.
  intros s'. unfold put. destruct v; try discriminate.
  destruct (heap s !! _) as [o|]; [|discriminate].
  destruct (own o k); [by destruct (frozen o)|].
  destruct (find_member _ _ _ _) as [ | |[]| ];
    try (by destruct (extensible o && writable_member _ _ _ _)); try discriminate.
  destruct x; unfold set_proto; try discriminate;
    by destruct (bool_decide _ || _).
Qed.

Lemma delete_prop_fits (v : value) (k : string) (s : store) :
  fits (delete_prop v k s).
Proof.
  intros s'. unfold delete_prop. destruct v; try discriminate.
  by destruct (match heap s !! _ with Some _ => _ | None => _ end).
Qed.

Lemma assoc_Some_snd {A} (k : string) (ps : list (string * A)) (x : A) :
  assoc k ps = Some x -> x ∈ ps.*2.
Proof.
  induction ps as [|[k0 v0] ps IH]; simpl; [done|].
  destruct (String.eqb k k0).
  - intros [= ->]. apply elem_of_cons. by left.
  - intros H. apply elem_of_cons. right. by apply IH.
Qed.

(** One round of the loop overflows no stack when the recursive calls on
    the source's fields, made while the source carries the marker, do not. *)
Lemma clone_key_fits (rec : value -> M value) (lo : loc) (temp : value)
    (key : string) (s : store) (o : object) :
  heap s !! lo = Some o -> own o "isActiveClone" = None ->
  (forall x, x ∈ (props o).*2 ->
     fits (rec x (update lo (fun o => with_props o
                                        (props o ++ [("isActiveClone", VNull)])) s))) ->
  fits (clone_key rec (VObject lo) temp key s).
Proof.
  intros Hl Hown Hrec. unfold clone_key.
  rewrite (bind_eq _ _ s s (has_own (heap s) lo key)) by reflexivity.
  destruct (has_own (heap s) lo key) eqn:Hkey; [|done].
  unfold has_own in Hkey. rewrite Hl in Hkey.
  destruct (own o key) as [x|] eqn:Hx; [|discriminate].
  apply bind_fits; [apply put_fits|]. intros u1 sm Hmark.
  apply (put_mark_Ret lo s sm o u1 Hl Hown) in Hmark. subst sm.
  set (sm := update lo _ s).
  assert (Hlm : heap sm !! lo
                = Some (with_props o (props o ++ [("isActiveClone", VNull)]))).
  { unfold sm. rewrite update_lookup, Hl. by destruct (decide (lo = lo)). }
  rewrite (bind_eq _ _ sm sm x).
  2:{ apply (get_value_own _ _ _ _ _ Hlm). unfold own. simpl.
      by apply assoc_app_present. }
  apply bind_fits; [apply Hrec; by eapply assoc_Some_snd|].
  intros c s3 _. apply bind_fits; [apply put_fits|].
  intros [] s4 _. apply delete_prop_fits.
Qed.

Lemma closed_frame (n : nat) (h h' : list object) :
  closed n h -> n <= length h ->
  (forall l o, l < n -> h !! l = Some o -> h' !! l = Some o) ->
  closed n h'.
Proof.
  intros Hc Hn Hfr l o l' Hl Ho. destruct (lookup_lt_is_Some_2 h l) as [o0 Ho0]; [lia|].
  pose proof (Hfr _ _ Hl Ho0) as Ho'. rewrite Ho in Ho'. injection Ho' as ->.
  by apply (Hc l o0).
Qed.

Lemma closed_mark (n : nat) (s : store) (lo : loc) :
  closed n (heap s) ->
  closed n (heap (update lo
                    (fun o => with_props o (props o ++ [("isActiveClone", VNull)])) s)).
Proof.
  intros Hc l o l' Hl. rewrite update_lookup.
  destruct (decide (lo = l)) as [<-|Hne]; [|by apply Hc].
  destruct (heap s !! lo) as [o0|] eqn:Ho0; [|discriminate].
  intros [= <-]. simpl. rewrite fmap_app, elem_of_app. intros [Hin|Hin].
  - by apply (Hc lo o0).
  - simpl in Hin. by apply list_elem_of_singleton in Hin.
Qed.

Lemma marked_mark (s : store) (lo l : loc) :
  marked (update lo (fun o => with_props o (props o ++ [("isActiveClone", VNull)])) s) l
  = if decide (lo = l) then bool_decide (l < length (heap s)) else marked s l.
Proof.
  unfold marked, has_own. rewrite update_lookup.
  destruct (decide (lo = l)) as [<-|Hne]; [|done].
  destruct (heap s !! lo) as [o|] eqn:Ho; simpl.
  - rewrite bool_decide_eq_true_2 by by eapply lookup_lt_Some.
    unfold own. simpl.
    destruct (assoc "isActiveClone" (props o)) as [x|] eqn:Hx.
    + by rewrite (assoc_app_present _ _ _ _ Hx).
    + rewrite (assoc_app_absent _ _ _ Hx). reflexivity.
  - rewrite bool_decide_eq_false_2; [done|]. apply lookup_ge_None_1 in Ho. lia.
Qed.

(** Each nested call marks one more of the objects that existed at the
    start, and a marked object is returned at once: with [U] listing the
    unmarked ones, room for more than [length U] nested calls is enough. *)
Lemma clone_stack_enough (n : nat) :
  forall (stack : nat) (U : list loc) (s : store) (v : value),
    n <= length (heap s) -> closed n (heap s) ->
    (forall l, v = VObject l -> l < n) ->
    (forall l, l < n -> marked s l = false -> l ∈ U) ->
    length U < stack ->
    fits (clone stack v s).
Proof.
  induction stack as [|stack IH]; intros U s v Hn Hc Hv HU Hstack; [lia|].
  simpl.
  destruct (is_null v || negb (String.eqb (typeof v) "object")) eqn:Hty; [done|].
  destruct v as [| | | | |lo]; try discriminate.
  pose proof (Hv lo eq_refl) as Hlo.
  apply bind_fits; [apply invoke_fits|]. intros m s1 Hm.
  apply invoke_hasOwnProperty_Ret in Hm as [-> ->]. simpl.
  destruct (has_own (heap s) lo "isActiveClone") eqn:Hmk; [done|].
  apply bind_fits; [apply invoke_fits|]. intros temp s1 Ht.
  apply invoke_constructor_Ret in Ht as [-> ->].
  apply bind_fits; [done|]. intros keys s2 Hk.
  unfold enumerate in Hk. injection Hk as _ <-.
  apply bind_fits; [|done]. clear Hty.
  set (t := length (heap s)).
  assert (Hmk1 : marked {| heap := heap s ++ [plain_object]; trace := trace s |} lo
                 = false) by by rewrite alloc_marked.
  assert (Hn1 : n <= length (heap {| heap := heap s ++ [plain_object];
                                     trace := trace s |})).
  { simpl. rewrite length_app. lia. }
  assert (Hc1 : closed n (heap {| heap := heap s ++ [plain_object];
                                  trace := trace s |})).
  { apply (closed_frame n (heap s)); [done|done|].
    intros l o _ Hl. by apply lookup_app_l_Some. }
  assert (HU1 : forall l, l < n ->
            marked {| heap := heap s ++ [plain_object]; trace := trace s |} l = false ->
            l ∈ U).
  { intros l Hl. rewrite alloc_marked. by apply HU. }
  generalize dependent {| heap := heap s ++ [plain_object]; trace := trace s |}.
  clear Hmk HU Hc. intros s1 Hmk1 Hn1 Hc1 HU1.
  induction keys as [|key keys IHk] in s1, Hmk1, Hn1, Hc1, HU1 |- *; [done|].
  simpl. destruct (lookup_lt_is_Some_2 (heap s1) lo) as [o Ho]; [lia|].
  assert (Hown : own o "isActiveClone" = None).
  { unfold marked, has_own in Hmk1. rewrite Ho in Hmk1. by destruct (own o _). }
  apply bind_fits.
  - apply (clone_key_fits _ _ _ _ _ o Ho Hown). intros x Hx.
    apply (IH (filter (fun l => l <> lo) U)).
    + by rewrite update_length.
    + by apply closed_mark.
    + intros l ->. by apply (Hc1 lo o l).
    + intros l Hl. rewrite marked_mark.
      destruct (decide (lo = l)) as [<-|Hne].
      * rewrite bool_decide_eq_true_2 by lia. discriminate.
      * intros Hml. apply list_elem_of_filter. split; [done|]. by apply HU1.
    + assert (length (filter (fun l => l <> lo) U) < length U); [|lia].
      apply (length_filter_lt _ _ lo); [by apply HU1|]. by intros [].
  - intros [] s2 Hkey.
    assert (Hne : lo <> t) by (unfold t; lia).
    destruct (clone_key_frame _ _ _ _ _ _ _ (clone_keeps_heap stack) Hmk1 Hne Hkey)
      as (_ & Hlen & Hfr).
    pose proof (clone_key_markers _ _ _ _ _ _ _ (clone_keeps_markers stack) Hmk1 Hkey)
      as Hms.
    apply IHk.
    + by rewrite Hms.
    + lia.
    + apply (closed_frame n (heap s1)); [done|done|].
      intros l o' Hl. apply Hfr. unfold t. lia.
    + intros l Hl. rewrite Hms. by apply HU1.
Qed.

(** X10: the depth of [clone]'s recursion is bounded by the number of
    objects, on every object graph, cyclic ones included.  In a heap whose
    objects refer only to objects of the heap, a call on any value that has
    room on the call stack for more nested calls than there are objects never
    overflows the stack: it returns, or throws an error that is not the
    RangeError.  Each nested call marks one more of the objects that existed
    when the call began, and a marked object is returned at once. *)
Theorem clone_depth_bounded (stack : nat) (s : store) (v : value) :
  closed (length (heap s)) (heap s) ->
  (forall l, v = VObject l -> l < length (heap s)) ->
  length (heap s) < stack ->
  forall s', clone stack v s <> Throw RangeError s'.
Proof.
  intros Hc Hv Hstack.
  apply (clone_stack_enough (length (heap s)) stack (seq 0 (length (heap s)))).
  - done.
  - exact Hc.
  - exact Hv.
  - intros l Hl _. apply elem_of_seq. lia.
  - by rewrite length_seq.
Qed.

Lemma clone_depth_bounded_witness :
  clone 2 (VObject 0) self_store <> Throw RangeError self_store.
Proof.
  apply (clone_depth_bounded 2 self_store (VObject 0)).
  - intros [|l] o l' Hl Ho Hin; [|simpl in Hl; lia].
    injection Ho as <-. simpl in Hin.
    apply list_elem_of_singleton in Hin. injection Hin as ->. simpl. lia.
  - intros l [= <-]. simpl. lia.
  - simpl. lia.
Defined.

(** ** validateKernelObj: what a returned descriptor is *)

Section ValidationSoundness.

Variable JSON_parse : string -> list object -> option (value * list object).
Variable StringToNumber : string -> float.

Lemma loosely_true_store (v : value) (b : bool) (s s' : store) :
  loosely_true StringToNumber v s = Ret b s' -> s' = s.
Proof.
  unfold loosely_true. destruct v; try by intros [= _ <-].
  all: intros H; bind_inv H as p s1 Hp; apply ToPrimitive_store in Hp as ->;
    by injection H as _ <-.
Qed.

(** A value that is not an object of the heap has no [isKernelObj]. *)
Lemma get_value_flag_object (d flag : value) (s s' : store) :
  get_value d "isKernelObj" s = Ret flag s' -> flag <> VUndefined ->
  exists l o, d = VObject l /\ heap s !! l = Some o.
Proof.
  intros H Hflag. destruct d as [| | | | |l]; try discriminate;
    try (injection H as <- _; done).
  destruct (heap s !! l) as [o|] eqn:Hl; [by exists l, o|].
  unfold get_value, bind, get_prop, member in H.
  rewrite find_member_eq, Hl in H. injection H as <- _. done.
Qed.

Lemma validate_primitive (input d : value) (s0 s : store) :
  presents JSON_parse input s0 d s ->
  typeof d = "boolean" \/ typeof d = "number" \/ typeof d = "string" ->
  validateKernelObj JSON_parse StringToNumber input s0
  = Throw (missing_flag) s.
Proof.
  intros Hp Hd.
  apply (validate_presented JSON_parse StringToNumber input d VUndefined s0 s false Hp).
  - by destruct d; destruct Hd as [?|[?|?]].
  - by destruct d; destruct Hd as [?|[?|?]].
  - reflexivity.
Qed.

(** X11: what [validateKernelObj] returns has passed every check.  Whenever
    a call returns, the result is the argument itself, with the store
    untouched, or what [JSON.parse] decoded from the text argument; it is an
    object of the heap, never null, undefined or another primitive; its
    [isKernelObj] is loosely equal to [true]; and nothing has been written to
    the console. *)
Theorem validateKernelObj_sound (input r : value) (s0 s : store) :
  validateKernelObj JSON_parse StringToNumber input s0 = Ret r s ->
  presents JSON_parse input s0 r s
  /\ (exists l o, r = VObject l /\ heap s !! l = Some o)
  /\ (exists flag,
        get_value r "isKernelObj" s = Ret flag s
        /\ loosely_true StringToNumber flag s = Ret true s)
  /\ trace s = trace s0.
Proof.
  intros H. unfold validateKernelObj in H.
  destruct (loosely_null input) eqn:Hnull; [discriminate|].
  bind_inv H as d s1 Hd. bind_inv H as flag s2 Hflag. bind_inv H as b s3 Hb.
  destruct b; [|discriminate]. injection H as <- <-.
  pose proof (get_value_store _ _ _ _ _ Hflag) as ->.
  pose proof (loosely_true_store _ _ _ _ Hb) as ->.
  assert (Hp : presents JSON_parse input s0 d s1).
  { destruct input as [| | | |text|l]; try discriminate;
      try (injection Hd as <- <-; by apply presents_structured).
    bind_inv Hd as parsed s2 Hparse. unfold parse in Hparse.
    destruct (JSON_parse text (heap s0)) as [[v h]|] eqn:Hj.
    - injection Hparse as <- <-. destruct (loosely_null v); [discriminate|].
      injection Hd as <- <-. by apply presents_decoded.
    - injection Hparse as <- <-. discriminate. }
  split; [exact Hp|]. split; [|split].
  - apply (get_value_flag_object _ _ _ _ Hflag). by intros ->.
  - by exists flag.
  - by destruct Hp.
Qed.

(** X12: [validateKernelObj] accepts no primitive.  [undefined] is rejected
    with the null error, as null is; a boolean or a number is rejected with
    the missing-flag error, having no [isKernelObj]; and so is a text that
    decodes to a boolean, a number or a string. *)
Theorem validateKernelObj_rejects_primitives (s : store) :
  validateKernelObj JSON_parse StringToNumber VUndefined s
  = Throw (Thrown (VString "KernelObj being validated is NULL")) s
  /\ (forall input,
        typeof input = "boolean" \/ typeof input = "number" ->
        validateKernelObj JSON_parse StringToNumber input s = Throw missing_flag s)
  /\ (forall text d h,
        JSON_parse text (heap s) = Some (d, h) ->
        typeof d = "boolean" \/ typeof d = "number" \/ typeof d = "string" ->
        validateKernelObj JSON_parse StringToNumber (VString text) s
        = Throw missing_flag {| heap := h; trace := trace s |}).
Proof.
  split; [reflexivity|]. split.
  - intros input Hin. apply (validate_primitive input input).
    + apply presents_structured. intros x ->. by destruct Hin.
    + tauto.
  - intros text d h Hj Hd. apply (validate_primitive (VString text) d); [|done].
    by apply presents_decoded.
Qed.

End ValidationSoundness.

Lemma validateKernelObj_sound_witness :
  exists l o,
    VObject 0 = VObject l
    /\ heap {| heap := [record [("isKernelObj", VBool true)]]; trace := [] |} !! l
       = Some o.
Proof.
  apply (validateKernelObj_sound sample_JSON_parse sample_StringToNumber
           (VString kernel_text) (VObject 0) empty_store
           {| heap := [record [("isKernelObj", VBool true)]]; trace := [] |}
           eq_refl).
Defined.

Lemma validateKernelObj_rejects_primitives_witness :
  validateKernelObj sample_JSON_parse sample_StringToNumber (VNumber 1%float) empty_store
  = Throw missing_flag empty_store
  /\ validateKernelObj sample_JSON_parse sample_StringToNumber (VString "true")
       empty_store
     = Throw missing_flag empty_store.
Proof.
  destruct (validateKernelObj_rejects_primitives sample_JSON_parse
              sample_StringToNumber empty_store) as (_ & Hin & Htext).
  split.
  - apply Hin. by right.
  - apply (Htext "true" (VBool true) []); [reflexivity|by left].
Defined.

(** ** clone: instances, host objects and prototypes *)

(** X13: [clone] cannot copy an instance of a class or a host object.  For
    an unmarked object whose prototype is a class prototype, or that of a
    canvas element, a rendering context or a document, [obj.constructor()]
    calls a constructor without [new]: [clone] throws a TypeError before it
    has allocated or marked anything. *)
Theorem clone_instance_throws (stack : nat) (s : store) (l : loc) (o : object) :
  heap s !! l = Some o ->
  proto o = ClassPrototype \/ proto o = CanvasPrototype
  \/ proto o = WebGLPrototype \/ proto o = DocumentPrototype ->
  own o "isActiveClone" = None -> own o "hasOwnProperty" = None ->
  own o "constructor" = None ->
  clone (S stack) (VObject l) s = Throw TypeError s.
Proof.
  intros Hl Hp Hm Hh Hc. rewrite clone_object_eq.
  assert (Hu : forall l', proto o <> UserPrototype l').
  { intros l' Hl'. rewrite Hl' in Hp. by destruct Hp as [?|[?|[?|?]]]. }
  assert (Hmk : has_own (heap s) l "isActiveClone" = false).
  { unfold has_own. by rewrite Hl, Hm. }
  rewrite (bind_eq _ _ s s (VBool false)).
  2:{ unfold invoke, invoke_on, rmember, member. cbn [member_name].
      rewrite (find_member_builtin _ _ _ _ _ Hl Hh Hu).
      destruct Hp as [Hp|[Hp|[Hp|Hp]]]; rewrite Hp; simpl; by rewrite Hmk. }
  cbn [truthy]. unfold bind, invoke, invoke_on, rmember, member. cbn [member_name].
  rewrite (find_member_builtin _ _ _ _ _ Hl Hc Hu).
  by destruct Hp as [Hp|[Hp|[Hp|Hp]]]; rewrite Hp.
Qed.

Lemma clone_instance_throws_witness :
  clone 1 (VObject 1) browser_store = Throw TypeError browser_store.
Proof.
  apply (clone_instance_throws 0 browser_store 1 _ eq_refl);
    [by right; right; left|reflexivity|reflexivity|reflexivity].
Defined.

Lemma for_each_skips (rec : value -> M value) (lo : loc) (temp : value)
    (keys : list string) (s : store) :
  (forall k, k ∈ keys -> has_own (heap s) lo k = false) ->
  for_each keys (clone_key rec (VObject lo) temp) s = Ret tt s.
Proof.
  induction keys as [|key keys IH]; intros Hk; [done|].
  cbn [for_each]. rewrite (bind_eq _ _ s s tt).
  - apply IH. intros k Hin. apply Hk, elem_of_cons. by right.
  - unfold clone_key.
    rewrite (bind_eq _ _ s s (has_own (heap s) lo key)) by reflexivity.
    rewrite Hk; [done|]. apply elem_of_cons. by left.
Qed.

(** Where no frozen object owns [k], nothing stands in the way of writing
    [k], whatever the prototype chain. *)
Lemma writable_member_unfrozen (fuel : nat) (h : list object) (l : loc) (k : string) :
  (forall l' o', h !! l' = Some o' -> frozen o' = true -> own o' k = None) ->
  writable_member fuel h l k = true.
Proof.
  intros Hfz. revert l. induction fuel as [|fuel IH]; intros l;
    rewrite writable_member_eq; destruct (h !! l) as [o|] eqn:Hl; try done;
    destruct (own o k) eqn:Ho;
    try (destruct (frozen o) eqn:Hfr; [|done];
         rewrite (Hfz _ _ Hl Hfr) in Ho; discriminate);
    destruct (proto o); try done; apply IH.
Qed.

(** One round of the loop on a field that holds a primitive: the field is
    appended to the copy, and the source is as before. *)
Lemma clone_key_flat (stack : nat) (lo t : loc) (o : object) (k : string) (x : value)
    (pre : list (string * value)) (s : store) :
  lo <> t -> heap s !! lo = Some o -> heap s !! t = Some (record pre) ->
  own o "isActiveClone" = None -> own o k = Some x ->
  (forall l, x <> VObject l) -> k ∉ pre.*1 -> k <> "__proto__" ->
  extensible o = true ->
  (forall l' o', heap s !! l' = Some o' -> frozen o' = true ->
                 own o' "isActiveClone" = None) ->
  clone_key (clone (S stack)) (VObject lo) (VObject t) k s
  = Ret tt {| heap := <[t := record (pre ++ [(k, x)])]> (heap s); trace := trace s |}.
Proof.
  intros Hne Hlo Ht Hown Hk Hx Hpre Hproto He Hfz. unfold clone_key.
  rewrite (bind_eq _ _ s s true).
  2:{ unfold hasOwnProperty_call. cbn [has_own_member]. unfold has_own.
      by rewrite Hlo, Hk. }
  rewrite (bind_eq _ _ _ _ _
             (put_mark lo s o Hlo Hown He (writable_member_unfrozen _ _ _ _ Hfz))).
  set (sm := update lo _ s).
  assert (Hlm : heap sm !! lo
                = Some (with_props o (props o ++ [("isActiveClone", VNull)]))).
  { unfold sm. rewrite update_lookup, Hlo. by destruct (decide (lo = lo)). }
  assert (Htm : heap sm !! t = Some (record pre)).
  { unfold sm. rewrite update_lookup. by destruct (decide (lo = t)). }
  rewrite (bind_eq _ _ sm sm x).
  2:{ apply (get_value_own _ _ _ _ _ Hlm). unfold own. simpl.
      by apply assoc_app_present. }
  rewrite (bind_eq _ _ _ _ _ (clone_primitive stack x sm Hx)).
  assert (Hput : put (VObject t) k x sm
                 = Ret tt (update t (fun o => with_props o (props o ++ [(k, x)])) sm)).
  { apply (put_append t k x sm (record pre) Htm).
    - by apply assoc_None_fst.
    - intros a Ha.
      rewrite (find_member_builtin _ _ _ (record pre) k Htm) in Ha;
        [|by apply assoc_None_fst|discriminate].
      by apply object_prototype_accessor in Ha.
    - reflexivity.
    - apply (writable_member_builtin _ _ _ (record pre));
        [exact Htm|by apply assoc_None_fst|discriminate]. }
  rewrite (bind_eq _ _ _ _ _ Hput).
  rewrite (delete_prop_unsealed lo _ _
             (with_props o (props o ++ [("isActiveClone", VNull)]))).
  2:{ rewrite update_lookup. by destruct (decide (t = lo)). }
  2:{ by apply extensible_unsealed. }
  f_equal.
  apply store_eq; [|unfold sm; by rewrite !update_trace].
  apply list_eq. intros i. rewrite !update_lookup. cbn [heap].
  destruct (decide (lo = i)) as [<-|Hi].
  - destruct (decide (t = lo)) as [->|_]; [done|].
    rewrite Hlm, list_lookup_insert_ne, Hlo by done. simpl.
    unfold with_props. simpl. rewrite (assoc_remove_snoc _ _ _ Hown).
    by destruct o.
  - destruct (decide (t = i)) as [<-|Hi'].
    + rewrite Htm, list_lookup_insert_eq by by eapply lookup_lt_Some. done.
    + rewrite list_lookup_insert_ne by done. unfold sm. rewrite update_lookup.
      by destruct (decide (lo = i)).
Qed.

Lemma for_each_flat (stack : nat) (lo t : loc) (o : object) (rest : list string) :
  lo <> t -> own o "isActiveClone" = None ->
  (forall x, x ∈ (props o).*2 -> forall l, x <> VObject l) ->
  (forall k, k ∈ rest -> own o k = None) ->
  NoDup (props o).*1 -> "__proto__" ∉ (props o).*1 ->
  extensible o = true ->
  forall (ps pre : list (string * value)) (s : store),
    props o = pre ++ ps ->
    heap s !! lo = Some o -> heap s !! t = Some (record pre) ->
    (forall l' o', heap s !! l' = Some o' -> frozen o' = true ->
                   own o' "isActiveClone" = None) ->
    for_each (ps.*1 ++ rest) (clone_key (clone (S stack)) (VObject lo) (VObject t)) s
    = Ret tt {| heap := <[t := record (props o)]> (heap s); trace := trace s |}.
Proof.
  intros Hne Hown Hprim Hrest Hnd Hproto He.
  induction ps as [|[k x] ps IH]; intros pre s Hps Hlo Ht Hfz.
  - rewrite app_nil_r in Hps. rewrite Hps. simpl.
    rewrite for_each_skips.
    + rewrite list_insert_id by done. by destruct s.
    + intros k Hk. unfold has_own. by rewrite Hlo, (Hrest k Hk).
  - assert (Hk : k ∉ pre.*1).
    { rewrite Hps, fmap_app in Hnd. apply NoDup_app in Hnd as (_ & Hnd & _).
      intros Hin. apply (Hnd k Hin). simpl. apply elem_of_cons. by left. }
    assert (Hx : own o k = Some x).
    { unfold own. rewrite Hps. by apply assoc_middle. }
    cbn [fmap list_fmap app fst]. cbn [for_each].
    rewrite (bind_eq _ _ _ _ _
               (clone_key_flat stack lo t o k x pre s Hne Hlo Ht Hown Hx
                  (Hprim x (assoc_Some_snd _ _ _ Hx)) Hk
                  ltac:(intros ->; apply Hproto; rewrite Hps, fmap_app;
                        apply elem_of_app; right; apply elem_of_cons; by left)
                  He Hfz)).
    rewrite (IH (pre ++ [(k, x)])).
    + cbn [heap trace]. by rewrite list_insert_insert_eq.
    + by rewrite <- app_assoc.
    + cbn [heap]. by rewrite list_lookup_insert_ne.
    + cbn [heap]. apply list_lookup_insert_eq. by eapply lookup_lt_Some.
    + cbn [heap]. intros l' o' Hl' Hfr.
      destruct (decide (t = l')) as [<-|Hne'].
      * rewrite list_lookup_insert_eq in Hl' by by eapply lookup_lt_Some.
        injection Hl' as <-. discriminate.
      * rewrite list_lookup_insert_ne in Hl' by done. by apply (Hfz l' o').
Qed.

(** X14: [clone] keeps neither the prototype nor what is inherited.  Take an
    unmarked, extensible object with any prototype chain that ends in
    Object.prototype (so that [hasOwnProperty] and [constructor] are the
    inherited built-ins), whose own fields hold primitives, in a heap where
    no frozen object owns an [isActiveClone] (an inherited read-only one
    would make the marker unwritable), and a call stack with room for two
    nested calls.  Then the clone is one new plain record with exactly the
    own fields, in their order: the loop visits the inherited enumerable keys
    too, and its [hasOwnProperty] test skips them.  The source and the rest
    of the heap are as before.  An object that is not extensible is outside
    this: the marker cannot be added to it. *)
Theorem clone_flattens (stack : nat) (s : store) (l : loc) (o : object) :
  heap s !! l = Some o ->
  find_member (length (heap s)) (heap s) l "hasOwnProperty" = Method HasOwnProperty ->
  find_member (length (heap s)) (heap s) l "constructor" = Method ObjectConstructor ->
  own o "isActiveClone" = None ->
  NoDup (props o).*1 -> "__proto__" ∉ (props o).*1 ->
  (forall x, x ∈ (props o).*2 -> forall l', x <> VObject l') ->
  extensible o = true ->
  (forall l' o', heap s !! l' = Some o' -> frozen o' = true ->
                 own o' "isActiveClone" = None) ->
  clone (S (S stack)) (VObject l) s
  = Ret (VObject (length (heap s)))
        {| heap := heap s ++ [record (props o)]; trace := trace s |}.
Proof.
  intros Hl Hh Hc Hown Hnd Hproto Hprim He Hfz. rewrite clone_object_eq.
  assert (Hlt : l < length (heap s)) by by eapply lookup_lt_Some.
  rewrite (bind_eq _ _ s s (VBool false)).
  2:{ unfold invoke, invoke_on, rmember, member. cbn [member_name].
      rewrite Hh. simpl. unfold has_own. by rewrite Hl, Hown. }
  cbn [truthy].
  rewrite (bind_eq _ _ s {| heap := heap s ++ [plain_object]; trace := trace s |}
             (VObject (length (heap s)))).
  2:{ unfold invoke, invoke_on, rmember, member. cbn [member_name]. by rewrite Hc. }
  set (s1 := {| heap := heap s ++ [plain_object]; trace := trace s |}).
  assert (Hl1 : heap s1 !! l = Some o) by by apply lookup_app_l_Some.
  assert (Ht1 : heap s1 !! length (heap s) = Some (record []))
    by by apply list_lookup_middle.
  rewrite (bind_eq _ _ s1 s1 (for_in_keys (length (heap s1)) (heap s1) l))
    by reflexivity.
  rewrite for_in_keys_eq, Hl1.
  set (rest := match proto o with UserPrototype _ => _ | _ => [] end).
  assert (Hrest : forall k, k ∈ rest -> own o k = None).
  { intros k Hk. apply assoc_None_fst. unfold rest in Hk.
    destruct (proto o); try by apply elem_of_nil in Hk.
    destruct (length (heap s1)); [by apply elem_of_nil in Hk|].
    by apply list_elem_of_difference in Hk as [_ ?]. }
  assert (Hfz1 : forall l' o', heap s1 !! l' = Some o' -> frozen o' = true ->
                             own o' "isActiveClone" = None).
  { intros l' o' Hl' Hfr. cbn [heap s1] in Hl'.
    apply lookup_app_Some in Hl' as [Hl'|[_ Hl']]; [by apply (Hfz l' o')|].
    apply list_lookup_singleton_Some in Hl' as [_ <-]. discriminate. }
  rewrite (bind_eq _ _ _ _ _
             (for_each_flat stack l (length (heap s)) o rest ltac:(lia) Hown Hprim
                Hrest Hnd Hproto He (props o) [] s1 eq_refl Hl1 Ht1 Hfz1)).
  unfold ret. f_equal. apply store_eq; [|done]. cbn [heap s1].
  rewrite insert_app_r_alt by done. by rewrite Nat.sub_diag.
Qed.

Lemma clone_flattens_witness :
  clone 2 (VObject 0) inheriting_store
  = Ret (VObject 2)
        {| heap := heap inheriting_store ++ [record [("x", VNumber 1%float)]];
           trace := [] |}.
Proof.
  apply (clone_flattens 0 inheriting_store 0 _ eq_refl eq_refl eq_refl eq_refl).
  - apply NoDup_singleton.
  - by intros ?%list_elem_of_singleton.
  - by intros x ->%list_elem_of_singleton.
  - reflexivity.
  - intros [|[|l']] o' Hl' Hfr; [| |done]; injection Hl' as <-; discriminate.
Defined.

(** ** clone: objects that are not extensible *)

Lemma bind_throw {A B} (m : M A) (k : A -> M B) (s s1 : store) (e : exn) :
  m s = Throw e s1 -> bind m k s = Throw e s1.
Proof. unfold bind. by intros ->. Qed.

(** X16: [clone] cannot copy an object that is not extensible and has an own
    property.  For an unmarked object that was frozen, sealed or made
    non-extensible, with the inherited [hasOwnProperty] and [constructor],
    the assignment of the marker in the first round of the loop (line 233,
    strict code) is a TypeError: [clone] throws it, having allocated the
    empty copy and changed no object.  Without an own property the loop
    assigns nothing, and the fresh empty record is returned. *)
Theorem clone_inextensible (stack : nat) (s : store) (l : loc) (o : object) :
  heap s !! l = Some o -> extensible o = false ->
  find_member (length (heap s)) (heap s) l "hasOwnProperty" = Method HasOwnProperty ->
  find_member (length (heap s)) (heap s) l "constructor" = Method ObjectConstructor ->
  own o "isActiveClone" = None ->
  (props o <> [] ->
   clone (S stack) (VObject l) s
   = Throw TypeError {| heap := heap s ++ [plain_object]; trace := trace s |})
  /\ (props o = [] ->
      clone (S stack) (VObject l) s
      = Ret (VObject (length (heap s)))
            {| heap := heap s ++ [plain_object]; trace := trace s |}).
Proof.
  intros Hl He Hh Hc Hown.
  set (s1 := {| heap := heap s ++ [plain_object]; trace := trace s |}).
  assert (Hl1 : heap s1 !! l = Some o) by by apply lookup_app_l_Some.
  assert (Hstart : clone (S stack) (VObject l) s
                   = (for_each (for_in_keys (length (heap s1)) (heap s1) l)
                        (clone_key (clone stack) (VObject l)
                           (VObject (length (heap s)))) ;;;
                      ret (VObject (length (heap s)))) s1).
  { rewrite clone_object_eq. rewrite (bind_eq _ _ s s (VBool false)).
    2:{ unfold invoke, invoke_on, rmember, member. cbn [member_name].
        rewrite Hh. simpl. unfold has_own. by rewrite Hl, Hown. }
    cbn [truthy]. rewrite (bind_eq _ _ s s1 (VObject (length (heap s)))).
    2:{ unfold invoke, invoke_on, rmember, member. cbn [member_name]. by rewrite Hc. }
    by rewrite (bind_eq _ _ s1 s1 (for_in_keys (length (heap s1)) (heap s1) l)). }
  rewrite Hstart, for_in_keys_eq, Hl1. split.
  - destruct (props o) as [|[k x] ps] eqn:Hps; [done|]. intros _.
    cbn [fmap list_fmap app fst for_each].
    apply bind_throw, bind_throw. unfold clone_key.
    rewrite (bind_eq _ _ s1 s1 true).
    2:{ unfold hasOwnProperty_call. cbn [has_own_member]. unfold has_own, own.
        rewrite Hl1, Hps. simpl. by rewrite String.eqb_refl. }
    apply bind_throw. unfold put. rewrite Hl1, Hown, He.
    destruct (find_member (length (heap s1)) (heap s1) l "isActiveClone")
      as [ | |a| ] eqn:Hf; try reflexivity.
    by destruct (find_member_accessor _ _ _ _ _ Hf) as [[_ ?]|[_ ?]].
  - intros Hps. rewrite Hps. cbn [fmap list_fmap app].
    rewrite (bind_eq _ _ s1 s1 tt); [reflexivity|].
    apply for_each_skips. intros k _. unfold has_own, own. by rewrite Hl1, Hps.
Qed.

Lemma clone_inextensible_witness :
  clone 1 (VObject 0) frozen_store
  = Throw TypeError {| heap := heap frozen_store ++ [plain_object]; trace := [] |}
  /\ clone 1 (VObject 1) frozen_store
     = Ret (VObject 2) {| heap := heap frozen_store ++ [plain_object]; trace := [] |}.
Proof.
  split.
  - by apply (proj1 (clone_inextensible 0 frozen_store 0 _ eq_refl eq_refl eq_refl
                       eq_refl eq_refl)).
  - by apply (proj2 (clone_inextensible 0 frozen_store 1 _ eq_refl eq_refl eq_refl
                       eq_refl eq_refl)).
Defined.

(** ** The validators on primitives *)

(** X15: on a value that is not an object the validators answer without
    looking at the heap.  Reading a member of [undefined] throws a TypeError
    in both; null gives the boolean [false]; and for every boolean, number
    and string both return [undefined], the falsy operand their [&&] and
    [||] chains end on, not a boolean. *)
Theorem validators_on_primitives (v : value) (s : store) :
  (forall l, v <> VObject l) ->
  (v = VUndefined ->
   isCanvas v s = Throw TypeError s /\ isWebGl v s = Throw TypeError s)
  /\ (v = VNull ->
      isCanvas v s = Ret (VBool false) s /\ isWebGl v s = Ret (VBool false) s)
  /\ (loosely_null v = false ->
      isCanvas v s = Ret VUndefined s /\ isWebGl v s = Ret VUndefined s).
Proof.
  intros Hv. split; [|split].
  - by intros ->.
  - by intros ->.
  - intros Hn. destruct v as [| | | | |l]; try discriminate; try by split.
    by destruct (Hv l).
Qed.

Lemma validators_on_primitives_witness :
  isCanvas (VNumber 2%float) empty_store = Ret VUndefined empty_store
  /\ isWebGl (VNumber 2%float) empty_store = Ret VUndefined empty_store.
Proof.
  by apply (proj2 (proj2 (validators_on_primitives (VNumber 2%float) empty_store
                            ltac:(discriminate)))).
Defined.
